(** * LawDoc SaaS: a shallow embedding of [server.py]

    The service is a thin retrieval-augmented-generation shim: four HTTP
    handlers over one persistent vector store and two remote capabilities
    (embeddings and chat completion).  This development embeds

    - the Python string operations the handlers use ([str.split],
      [str.strip], slicing, f-strings, [str(int)]),
    - [base64.b64decode] and [bytes.decode("utf-8", errors="ignore")],
    - the vector store as a finite map of partitions, each a finite map
      from chunk id to (document, metadata, embedding),
    - the handlers [stats], [search], [ingest_json] and [ask] in a state
      and exception monad whose state is the store together with a log of
      every store operation and remote call,

    and proves the properties of the handlers stated in the specification. *)

From stdpp Require Import base numbers option list gmap strings pretty.
From Stdlib Require Import ZArith NArith Ascii Lia.

Set Default Proof Using "Type".

Local Open Scope N_scope.

(** ** Python strings *)

(** A Python [str] is a sequence of Unicode code points; [bytes] is a
    sequence of octets.  Both are lists of numbers here. *)
Abbreviation pystr := (list N).
Abbreviation pybytes := (list N).

Module PyStr.

(** A string literal of the source, as its sequence of code points. *)
Definition lit (s : string) : pystr :=
  (fun a => N_of_ascii a) <$> String.list_ascii_of_string s.

(** [str(i)] for a non-negative [int]: its decimal digits. *)
Definition str_of_nat (i : nat) : pystr := lit (pretty i).

(** The line feed character, and the paragraph separator ["\n\n"]. *)
Definition LF : N := 10.
Definition blank_line : pystr := [LF; LF].

(** [str.isspace] on one code point: the characters [str.strip()] removes
    (bidirectional type WS, B or S, or category Zs). *)
Definition is_space (c : N) : bool :=
  ((9 <=? c) && (c <=? 13)) || ((28 <=? c) && (c <=? 32))
  || (c =? 133) || (c =? 160) || (c =? 5760)
  || ((8192 <=? c) && (c <=? 8202))
  || (c =? 8232) || (c =? 8233) || (c =? 8239) || (c =? 8287) || (c =? 12288).

(** [s.lstrip()], [s.rstrip()] and [s.strip()]. *)
Fixpoint lstrip (s : pystr) : pystr :=
  match s with
  | [] => []
  | c :: s' => if is_space c then lstrip s' else s
  end.

Definition rstrip (s : pystr) : pystr := reverse (lstrip (reverse s)).

Definition strip (s : pystr) : pystr := rstrip (lstrip s).

(** [s.startswith(p)]. *)
Fixpoint starts_with (p s : pystr) : bool :=
  match p, s with
  | [], _ => true
  | _ :: _, [] => false
  | a :: p', b :: s' => (a =? b) && starts_with p' s'
  end.

(** Prepend a character to the first piece of a split. *)
Definition cons_head (c : N) (ps : list pystr) : list pystr :=
  match ps with
  | [] => [[c]]
  | p :: ps' => (c :: p) :: ps'
  end.

(** [s.split(sep)] for a non-empty [sep]: scan from the left; at each
    occurrence of [sep] close the current piece and resume after the
    separator.  [skip] counts the characters of a separator that was
    matched and is still to be passed over. *)
Fixpoint split_from (sep : pystr) (skip : nat) (s : pystr) : list pystr :=
  match s with
  | [] => [[]]
  | c :: s' =>
      match skip with
      | S k => split_from sep k s'
      | O =>
          if starts_with sep s
          then [] :: split_from sep (pred (List.length sep)) s'
          else cons_head c (split_from sep 0 s')
      end
  end.

Definition split (sep s : pystr) : list pystr := split_from sep 0 s.

(** [sep.join(l)]. *)
Fixpoint join (sep : pystr) (l : list pystr) : pystr :=
  match l with
  | [] => []
  | [p] => p
  | p :: l' => p ++ sep ++ join sep l'
  end.

(** Truthiness of a string: non-empty. *)
Definition truthy (s : pystr) : bool :=
  match s with [] => false | _ :: _ => true end.

(** Truthiness of a list: non-empty. *)
Definition truthy_list {A} (l : list A) : bool :=
  match l with [] => false | _ :: _ => true end.

End PyStr.

Import PyStr.

(** ** The chunker

    [[c.strip() for c in text.split("\n\n") if c.strip()]] *)

Definition chunk_pieces (pieces : list pystr) : list pystr :=
  strip <$> filter (fun c => truthy (strip c) = true) pieces.

Definition chunk (text : pystr) : list pystr :=
  chunk_pieces (split blank_line text).

(** The chunker as the specification words it: split on two consecutive
    newlines, trim each piece, then discard the pieces that became empty. *)
Definition chunk_as_specified (text : pystr) : list pystr :=
  filter (fun c => c ≠ []) (strip <$> split blank_line text).

(** A string free of the paragraph separator. *)
Definition no_blank_line (s : pystr) : Prop :=
  forall l1 l2, s <> l1 ++ blank_line ++ l2.

(** A string with no leading whitespace. *)
Definition lstripped (s : pystr) : Prop :=
  match s with
  | [] => True
  | c :: _ => is_space c = false
  end.

(** A chunk as the chunker emits them: non-empty, already trimmed and
    within one paragraph. *)
Definition clean_chunk (c : pystr) : Prop :=
  c <> [] /\ strip c = c /\ no_blank_line c.

(** ** [base64.b64decode]

    [b64decode(s)] with the default [validate=False]: a [str] argument is
    first encoded as ASCII, then [binascii.a2b_base64] runs in its
    non-strict mode, which passes over every character outside the base64
    alphabet. *)

Module Base64.

Inductive decoded :=
  | Decoded (data : pybytes)
  | Failed (message : pystr).

(** [table_a2b_base64]: the 6-bit value of an alphabet character. *)
Definition table_a2b (c : N) : option N :=
  if (65 <=? c) && (c <=? 90) then Some (c - 65)
  else if (97 <=? c) && (c <=? 122) then Some (c - 71)
  else if (48 <=? c) && (c <=? 57) then Some (c + 4)
  else if c =? 43 then Some 62
  else if c =? 47 then Some 63
  else None.

Definition PAD : N := 61.

(** A value stored into the [unsigned char] output buffer. *)
Definition octet (x : N) : N := N.land x 255.

Definition incorrect_padding : pystr := lit "Incorrect padding".

Definition invalid_length (written : nat) : pystr :=
  lit "Invalid base64-encoded string: number of data characters ("
  ++ str_of_nat (written / 3 * 4 + 1)%nat
  ++ lit ") cannot be 1 more than a multiple of 4".

(** The decoding loop of [binascii.a2b_base64].  [out] is the output
    written so far. *)
Fixpoint a2b_loop (data : pybytes) (quad_pos leftchar pads : N)
    (out : pybytes) : decoded :=
  match data with
  | [] =>
      if quad_pos =? 0 then Decoded out
      else if quad_pos =? 1 then Failed (invalid_length (List.length out))
      else Failed incorrect_padding
  | this_ch :: rest =>
      if this_ch =? PAD then
        if 2 <=? quad_pos then
          if 4 <=? quad_pos + (pads + 1) then Decoded out
          else a2b_loop rest quad_pos leftchar (pads + 1) out
        else a2b_loop rest quad_pos leftchar pads out
      else
        match table_a2b this_ch with
        | None => a2b_loop rest quad_pos leftchar pads out
        | Some v =>
            if quad_pos =? 0 then a2b_loop rest 1 v 0 out
            else if quad_pos =? 1 then
              a2b_loop rest 2 (N.land v 15) 0
                (out ++ [octet (N.lor (N.shiftl leftchar 2) (N.shiftr v 4))])
            else if quad_pos =? 2 then
              a2b_loop rest 3 (N.land v 3) 0
                (out ++ [octet (N.lor (N.shiftl leftchar 4) (N.shiftr v 2))])
            else
              a2b_loop rest 0 0 0
                (out ++ [octet (N.lor (N.shiftl leftchar 6) v)])
        end
  end.

Definition a2b_base64 (data : pybytes) : decoded := a2b_loop data 0 0 0 [].

Definition b64decode (s : pystr) : decoded :=
  if forallb (fun c => c <? 128) s then a2b_base64 s
  else Failed (lit "string argument should contain only ASCII characters").

End Base64.

(** ** [bytes.decode("utf-8", errors="ignore")]

    The UTF-8 decoder with the [ignore] error handler: an ill-formed
    sequence is dropped up to (not including) the byte that made it
    ill-formed, and decoding resumes there; a sequence cut short by the end
    of the data is dropped whole.  It never raises. *)

Module Utf8.

Definition is_continuation (b : N) : bool := (128 <=? b) && (b <? 192).

Definition low6 (b : N) : N := N.land b 63.

Fixpoint decode_ignore (s : pybytes) : pystr :=
  match s with
  | [] => []
  | ch :: s1 =>
      if ch <? 128 then ch :: decode_ignore s1
      else if ch <? 194 then decode_ignore s1
      else if ch <? 224 then
        match s1 with
        | [] => []
        | ch2 :: s2 =>
            if is_continuation ch2
            then N.lor (N.shiftl (N.land ch 31) 6) (low6 ch2) :: decode_ignore s2
            else decode_ignore s1
        end
      else if ch <? 240 then
        match s1 with
        | [] => []
        | ch2 :: s2 =>
            if negb (is_continuation ch2)
               || (if ch2 <? 160 then ch =? 224 else ch =? 237)
            then decode_ignore s1
            else
              match s2 with
              | [] => []
              | ch3 :: s3 =>
                  if is_continuation ch3
                  then N.lor (N.shiftl (N.land ch 15) 12)
                         (N.lor (N.shiftl (low6 ch2) 6) (low6 ch3))
                       :: decode_ignore s3
                  else decode_ignore s2
              end
        end
      else if ch <? 245 then
        match s1 with
        | [] => []
        | ch2 :: s2 =>
            if negb (is_continuation ch2)
               || (if ch2 <? 144 then ch =? 240 else ch =? 244)
            then decode_ignore s1
            else
              match s2 with
              | [] => []
              | ch3 :: s3 =>
                  if negb (is_continuation ch3) then decode_ignore s2
                  else
                    match s3 with
                    | [] => []
                    | ch4 :: s4 =>
                        if is_continuation ch4
                        then N.lor (N.shiftl (N.land ch 7) 18)
                               (N.lor (N.shiftl (low6 ch2) 12)
                                  (N.lor (N.shiftl (low6 ch3) 6) (low6 ch4)))
                             :: decode_ignore s4
                        else decode_ignore s3
                    end
              end
        end
      else decode_ignore s1
  end.

End Utf8.

(** ** JSON values: the handlers' response bodies *)

Module Json.

#[warnings="-register-all"]
Inductive json :=
  | JNull
  | JBool (b : bool)
  | JInt (n : Z)
  | JStr (s : pystr)
  | JList (l : list json)
  | JDict (items : list (pystr * json)).

Fixpoint assoc (k : pystr) (items : list (pystr * json)) : option json :=
  match items with
  | [] => None
  | (k', v) :: items' => if decide (k' = k) then Some v else assoc k items'
  end.

(** [j[k]] for a dict [j]. *)
Definition get (k : string) (j : json) : option json :=
  match j with
  | JDict items => assoc (lit k) items
  | _ => None
  end.

End Json.

Import Json.

(** ** Request bodies *)

Module IngestItem.
Record t := { client : pystr; filename : pystr; content_b64 : pystr }.
End IngestItem.

Module AskRequest.
Record t := { client : pystr; q : pystr; top_k : Z }.
End AskRequest.

(** ** The vector store

    The store is the external collaborator of the specification: a set of
    named partitions (collections), each holding rows keyed by id.  A
    metadata value is a Python dict from strings to strings. *)

Abbreviation metadata := (gmap pystr pystr).

Record Row (vec : Type) := mkRow {
  document : pystr;
  meta : metadata;
  embedding : vec
}.
Arguments mkRow {vec}.
Arguments document {vec}.
Arguments meta {vec}.
Arguments embedding {vec}.

Abbreviation Collection vec := (gmap pystr (Row vec)).
Abbreviation Store vec := (gmap pystr (gmap pystr (Row vec))).

(** What [col.query(..., include=["metadatas", "documents"])] returns: for
    each query text, the ranked documents and their metadata. *)
Record QueryResult := {
  documents : list (list pystr);
  metadatas : list (list metadata)
}.

(** An HTTP response of a remote capability, as the source reads it:
    [status_code], [text], and the part of [json()] the source extracts
    ([None] when the body is not of the expected shape). *)
Record Response (A : Type) := {
  status_code : Z;
  text : pystr;
  payload : option A
}.
Arguments status_code {A}.
Arguments text {A}.
Arguments payload {A}.

(** Every store operation and remote call a handler performs. *)
Inductive event (vec : Type) :=
  | GetCollection (name : pystr)
  | CreateCollection (name : pystr)
  | Count (name : pystr)
  | Query (name : pystr) (query_text : pystr) (n_results : Z)
  | Upsert (name : pystr) (ids documents : list pystr)
      (metadatas : list metadata) (embeddings : list vec)
  | EmbedRequest (texts : list pystr)
  | ChatRequest (question context : pystr).
Arguments GetCollection {vec}.
Arguments CreateCollection {vec}.
Arguments Count {vec}.
Arguments Query {vec}.
Arguments Upsert {vec}.
Arguments EmbedRequest {vec}.
Arguments ChatRequest {vec}.

Record World (vec : Type) := mkWorld {
  store : gmap pystr (gmap pystr (Row vec));
  log : list (event vec)
}.
Arguments mkWorld {vec}.
Arguments store {vec}.
Arguments log {vec}.

(** Python exceptions.  FastAPI answers an [HTTPException] with its status
    code, and any other exception with status 500. *)
Inductive exn :=
  | HTTPException (status : Z) (detail : pystr)
  | PyError.

Inductive outcome (A : Type) :=
  | Return (a : A)
  | Raise (e : exn).
Arguments Return {A}.
Arguments Raise {A}.

Definition is_store_write {vec} (e : event vec) : bool :=
  match e with
  | CreateCollection _ | Upsert _ _ _ _ _ => true
  | _ => false
  end.

(** The calls of the generation capability recorded in a log, as
    (question, context) pairs. *)
Definition chat_calls {vec} (l : list (event vec)) : list (pystr * pystr) :=
  omap (fun e => match e with
                 | ChatRequest question context => Some (question, context)
                 | _ => None
                 end) l.

(** No partition of [s] is missing from [s']. *)
Definition keeps_partitions {vec} (s s' : gmap pystr (gmap pystr (Row vec))) : Prop :=
  forall name, is_Some (s !! name) -> is_Some (s' !! name).

(** ** The server *)

Section Server.

(** Embedding vectors (lists of floats) are opaque to the handlers. *)
Context {vec : Type}.

(** [os.getenv("ACTION_KEY")]. *)
Variable ACTION_KEY : option pystr.

(** [str.lower]: the Unicode lower-case mapping. *)
Variable str_lower : pystr -> pystr.

(** The store's check of a collection name: chromadb refuses to create a
    collection whose name it does not accept (its length, its characters,
    its first and last character). *)
Variable valid_name : pystr -> bool.

(** The embeddings capability: the response to a POST of [texts], or [None]
    when [requests.post] itself raises. *)
Variable embeddings_api : list pystr -> option (Response (list vec)).

(** The chat completion capability, on the user message. *)
Variable chat_api : pystr -> option (Response pystr).

(** The store's similarity search over a partition's rows, or [None] when
    the store raises. *)
Variable similarity : gmap pystr (Row vec) -> pystr -> Z -> option QueryResult.

Definition M (A : Type) : Type := World vec -> outcome A * World vec.

Definition ret {A} (a : A) : M A := fun w => (Return a, w).

Definition raise {A} (e : exn) : M A := fun w => (Raise e, w).

Definition bind {A B} (m : M A) (k : A -> M B) : M B :=
  fun w =>
    match m w with
    | (Return a, w') => k a w'
    | (Raise e, w') => (Raise e, w')
    end.

(** [try: m  except Exception: h] *)
Definition try_except {A} (m : M A) (h : M A) : M A :=
  fun w =>
    match m w with
    | (Return a, w') => (Return a, w')
    | (Raise _, w') => h w'
    end.

Definition emit (e : event vec) : M unit :=
  fun w => (Return tt, mkWorld (store w) (log w ++ [e])).

Definition get_store : M (Store vec) := fun w => (Return (store w), w).

Definition put_store (s : Store vec) : M unit :=
  fun w => (Return tt, mkWorld s (log w)).

Notation "'let*' x ':=' m 'in' k" := (bind m (fun x => k))
  (at level 10, x name, m at level 100, k at level 200, only parsing).
Notation "m ';;' k" := (bind m (fun _ => k))
  (at level 100, k at level 200, right associativity, only parsing).

(** *** Store operations (chromadb) *)

Definition get_collection (name : pystr) : M pystr :=
  emit (GetCollection name);;
  let* s := get_store in
  match s !! name with
  | Some _ => ret name
  | None => raise PyError
  end.

Definition create_collection (name : pystr) : M pystr :=
  emit (CreateCollection name);;
  if negb (valid_name name) then raise PyError
  else
    let* s := get_store in
    match s !! name with
    | Some _ => raise PyError
    | None => put_store (<[name := ∅]> s);; ret name
    end.

Definition col_count (col : pystr) : M Z :=
  emit (Count col);;
  let* s := get_store in
  match s !! col with
  | Some rows => ret (Z.of_nat (size rows))
  | None => raise PyError
  end.

Definition col_query (col : pystr) (query_text : pystr) (n_results : Z)
    : M QueryResult :=
  emit (Query col query_text n_results);;
  let* s := get_store in
  match s !! col with
  | Some rows =>
      match similarity rows query_text n_results with
      | Some r => ret r
      | None => raise PyError
      end
  | None => raise PyError
  end.

(** The rows of one upsert call, zipped. *)
Fixpoint zip_rows (ids docs : list pystr) (metas : list metadata)
    (embeddings : list vec) : list (pystr * Row vec) :=
  match ids, docs, metas, embeddings with
  | i :: ids', d :: docs', m :: metas', e :: embeddings' =>
      (i, mkRow d m e) :: zip_rows ids' docs' metas' embeddings'
  | _, _, _, _ => []
  end.

(** Overwrite-by-id, in list order. *)
Definition write_rows (rows : list (pystr * Row vec))
    (c : gmap pystr (Row vec)) : gmap pystr (Row vec) :=
  fold_left (fun acc r => <[r.1 := r.2]> acc) rows c.

(** [col.upsert]: the store rejects record sets of unequal lengths. *)
Definition col_upsert (col : pystr) (ids docs : list pystr)
    (metas : list metadata) (embeddings : list vec) : M unit :=
  emit (Upsert col ids docs metas embeddings);;
  let* s := get_store in
  match s !! col with
  | Some rows =>
      if decide (List.length docs = List.length ids
                 /\ List.length metas = List.length ids
                 /\ List.length embeddings = List.length ids)
      then put_store (<[col := write_rows (zip_rows ids docs metas embeddings) rows]> s)
      else raise PyError
  | None => raise PyError
  end.

(** *** [server.py] *)

Definition collection_name (client_id : pystr) : pystr :=
  str_lower (lit "docs_" ++ client_id).

Definition ensure_collection (client_id : pystr) : M pystr :=
  let name := collection_name client_id in
  try_except (get_collection name) (create_collection name).

(** Truthiness of [ACTION_KEY]: set, and not the empty string. *)
Definition key_configured : bool :=
  match ACTION_KEY with
  | Some k => truthy k
  | None => false
  end.

Definition check_action_key (x_api_key : option pystr) : M unit :=
  if key_configured && negb (bool_decide (x_api_key = ACTION_KEY))
  then raise (HTTPException 401 (lit "Invalid action key"))
  else ret tt.

Definition embed_texts (texts : list pystr) : M (list vec) :=
  emit (EmbedRequest texts);;
  match embeddings_api texts with
  | None => raise PyError
  | Some resp =>
      if negb (status_code resp =? 200)%Z
      then raise (HTTPException 502 (lit "Embed failed: " ++ text resp))
      else
        match payload resp with
        | Some data => ret data
        | None => raise PyError
        end
  end.

Definition user_message (question context : pystr) : pystr :=
  lit "Question: " ++ question ++ [LF; LF] ++ lit "Context:" ++ [LF] ++ context.

Definition chat_answer (question context : pystr) : M pystr :=
  emit (ChatRequest question context);;
  match chat_api (user_message question context) with
  | None => raise PyError
  | Some r =>
      if negb (status_code r =? 200)%Z
      then raise (HTTPException 502 (lit "Chat failed: " ++ text r))
      else
        match payload r with
        | Some content => ret content
        | None => raise PyError
        end
  end.

Definition home : M json :=
  ret (JDict [(lit "ok", JBool true);
              (lit "msg", JStr (lit "RAG API is running. See /docs."))]).

Definition stats (client : pystr) : M json :=
  let* col := ensure_collection client in
  let* n := col_count col in
  ret (JDict [(lit "client", JStr client); (lit "count", JInt n)]).

(** [results[key][0]] *)
Definition first {A} (l : list (list A)) : M (list A) :=
  match l with
  | x :: _ => ret x
  | [] => raise PyError
  end.

Definition search_hit (dm : pystr * metadata) : json :=
  JDict [(lit "filename",
          match dm.2 !! lit "filename" with
          | Some f => JStr f
          | None => JNull
          end);
         (lit "preview", JStr (take 240 dm.1))].

Definition search (client q : pystr) (top_k : Z) : M json :=
  let* col := ensure_collection client in
  let* results := col_query col q top_k in
  let* docs := first (documents results) in
  let* metas := first (metadatas results) in
  let hits := fold_left (fun hits dm => hits ++ [search_hit dm]) (zip docs metas) [] in
  ret (JDict [(lit "client", JStr client); (lit "q", JStr q);
              (lit "hits", JList hits)]).

Definition chunk_id (filename : pystr) (i : nat) : pystr :=
  filename ++ lit ":" ++ str_of_nat i.

Definition filename_meta (filename : pystr) : metadata :=
  {[ lit "filename" := filename ]}.

Definition ingest_json (item : IngestItem.t) (x_api_key : option pystr) : M json :=
  check_action_key x_api_key;;
  let* text :=
    match Base64.b64decode (IngestItem.content_b64 item) with
    | Base64.Decoded content_bytes => ret (Utf8.decode_ignore content_bytes)
    | Base64.Failed e => raise (HTTPException 400 (lit "Invalid base64: " ++ e))
    end in
  let chunks := chunk text in
  if negb (truthy_list chunks)
  then raise (HTTPException 400 (lit "No text chunks"))
  else
    let* vecs := embed_texts chunks in
    let* col := ensure_collection (IngestItem.client item) in
    let ids := (fun i => chunk_id (IngestItem.filename item) i)
                 <$> seq 0 (List.length chunks) in
    let metas := (fun _ => filename_meta (IngestItem.filename item)) <$> chunks in
    col_upsert col ids chunks metas vecs;;
    ret (JDict [(lit "ok", JBool true);
                (lit "client", JStr (IngestItem.client item));
                (lit "filename", JStr (IngestItem.filename item));
                (lit "added", JInt (Z.of_nat (List.length chunks)))]).

Definition NOT_FOUND : pystr := lit "Not found in the provided documents.".

(** [m.get("filename", "unknown")] *)
Definition hit_filename (m : metadata) : pystr :=
  default (lit "unknown") (m !! lit "filename").

Definition context_entry (i : nat) (fname d : pystr) : pystr :=
  lit "[" ++ str_of_nat i ++ lit "] " ++ fname ++ [LF] ++ d ++ [LF; LF].

Definition source_entry (i : nat) (fname d : pystr) : json :=
  JDict [(lit "id", JInt (Z.of_nat i)); (lit "filename", JStr fname);
         (lit "snippet", JStr (take 240 d))].

(** One iteration of the loop of [ask] over
    [enumerate(zip(docs, metas), start=1)]: the state is the next index,
    [context] and [sources]. *)
Definition ask_step (acc : nat * pystr * list json) (dm : pystr * metadata)
    : nat * pystr * list json :=
  let '(i, context, sources) := acc in
  let fname := hit_filename dm.2 in
  (S i, context ++ context_entry i fname dm.1,
   sources ++ [source_entry i fname dm.1]).

Definition ask_loop (docs : list pystr) (metas : list metadata)
    : pystr * list json :=
  let '(_, context, sources) := fold_left ask_step (zip docs metas) (1%nat, [], []) in
  (context, sources).

Definition no_documents (r : QueryResult) : bool :=
  match documents r with
  | [] => true
  | [] :: _ => true
  | _ => false
  end.

Definition ask (req : AskRequest.t) (x_api_key : option pystr) : M json :=
  check_action_key x_api_key;;
  let* col := ensure_collection (AskRequest.client req) in
  let* r := col_query col (AskRequest.q req) (AskRequest.top_k req) in
  if no_documents r
  then ret (JDict [(lit "answer", JStr NOT_FOUND); (lit "sources", JList [])])
  else
    let* docs := first (documents r) in
    let* metas := first (metadatas r) in
    let '(context, sources) := ask_loop docs metas in
    let* answer := chat_answer (AskRequest.q req) context in
    ret (JDict [(lit "answer", JStr answer); (lit "sources", JList sources)]).

(** *** Vocabulary of the properties *)

(** The API-key check lets the request through. *)
Definition key_accepted (x_api_key : option pystr) : bool :=
  negb (key_configured && negb (bool_decide (x_api_key = ACTION_KEY))).

(** The rows of a partition; none if the partition does not exist. *)
Definition partition (name : pystr) (s : Store vec) : gmap pystr (Row vec) :=
  default ∅ (s !! name).

(** Partition [name] can be resolved: it exists, or the store accepts its
    name and so creates it. *)
Definition resolvable (name : pystr) (s : Store vec) : bool :=
  match s !! name with
  | Some _ => true
  | None => valid_name name
  end.

(** The store once partition [name] has been resolved. *)
Definition resolved (name : pystr) (s : Store vec) : Store vec :=
  match s !! name with
  | Some _ => s
  | None => <[name := ∅]> s
  end.

(** The store operations of resolving partition [name]. *)
Definition resolve_events (name : pystr) (s : Store vec) : list (event vec) :=
  match s !! name with
  | Some _ => [GetCollection name]
  | None => [GetCollection name; CreateCollection name]
  end.

(** The context string as the specification words it: the concatenation,
    in the store's order, of ["[<rank>] <filename>\n<document>\n\n"] for
    ranks [1..n]. *)
Definition context_as_specified (hits : list (pystr * metadata)) : pystr :=
  concat (imap (fun i dm => context_entry (S i) (hit_filename dm.2) dm.1) hits).

(** The sources list of the response: entry [i] (1-based) is
    [{id: i, filename, snippet}]. *)
Definition sources_of (hits : list (pystr * metadata)) : list json :=
  imap (fun i dm => source_entry (S i) (hit_filename dm.2) dm.1) hits.

(** The sources list as the specification words it, with the field [rank]. *)
Definition sources_as_specified (hits : list (pystr * metadata)) : list json :=
  imap (fun i dm =>
          JDict [(lit "rank", JInt (Z.of_nat (S i)));
                 (lit "filename", JStr (hit_filename dm.2));
                 (lit "snippet", JStr (take 240 dm.1))]) hits.

(** The rows an ingest of [chunks] under [filename] writes. *)
Definition ingest_rows (filename : pystr) (chunks : list pystr)
    (vecs : list vec) : list (pystr * Row vec) :=
  imap (fun i cv => (chunk_id filename i, mkRow cv.1 (filename_meta filename) cv.2))
       (zip chunks vecs).

End Server.

(** ** A concrete deployment, for running the handlers *)

Module Demo.

Definition vec : Type := list Z.

(** Lower-casing of the ASCII letters. *)
Definition ascii_lower (s : pystr) : pystr :=
  (fun c => if (65 <=? c) && (c <=? 90) then c + 32 else c) <$> s.

Definition secret : option pystr := Some (lit "s3cret").

Definition is_alnum (c : N) : bool :=
  ((48 <=? c) && (c <=? 57)) || ((65 <=? c) && (c <=? 90))
  || ((97 <=? c) && (c <=? 122)).

(** "0".."9", at most three of them. *)
Definition is_octet_text (s : pystr) : bool :=
  forallb (fun c => (48 <=? c) && (c <=? 57)) s
  && (1 <=? List.length s)%nat && (List.length s <=? 3)%nat.

(** The pieces of [s] between its full stops. *)
Fixpoint dot_fields (s : pystr) : list pystr :=
  match s with
  | [] => [[]]
  | c :: s' =>
      if c =? 46 then [] :: dot_fields s'
      else match dot_fields s' with
           | f :: fs => (c :: f) :: fs
           | [] => [[c]]
           end
  end.

Fixpoint has_two_dots (s : pystr) : bool :=
  match s with
  | c :: (c2 :: _) as s' => ((c =? 46) && (c2 =? 46)) || has_two_dots s'
  | _ => false
  end.

(** chromadb's check of a collection name: 3 to 512 characters among
    letters, digits, [.], [_] and [-], the first and the last a letter or a
    digit, no two consecutive full stops, and not an IPv4 address. *)
Definition name_ok (name : pystr) : bool :=
  (3 <=? List.length name)%nat && (List.length name <=? 512)%nat
  && forallb (fun c => is_alnum c || (c =? 46) || (c =? 95) || (c =? 45)) name
  && from_option is_alnum false (head name)
  && from_option is_alnum false (last name)
  && negb (has_two_dots name)
  && negb ((List.length (dot_fields name) =? 4)%nat
           && forallb is_octet_text (dot_fields name)).

Definition embeddings_up (texts : list pystr) : option (Response (list vec)) :=
  Some {| status_code := 200; text := [];
          payload := Some ((fun t => [Z.of_nat (List.length t)]) <$> texts) |}.

Definition embeddings_down (texts : list pystr) : option (Response (list vec)) :=
  Some {| status_code := 503; text := lit "overloaded"; payload := None |}.

Definition chat_up (message : pystr) : option (Response pystr) :=
  Some {| status_code := 200; text := []; payload := Some (lit "See clause 2.") |}.

Definition no_hits (rows : gmap pystr (Row vec)) (q : pystr) (k : Z)
    : option QueryResult :=
  Some {| documents := [[]]; metadatas := [[]] |}.

Definition lease_meta : metadata := {[ lit "filename" := lit "lease.txt" ]}.

Definition one_hit (rows : gmap pystr (Row vec)) (q : pystr) (k : Z)
    : option QueryResult :=
  Some {| documents := [[lit "A termination clause."]];
          metadatas := [[lease_meta]] |}.

Definition empty_world : World vec := mkWorld ∅ [].

(** "QSB0ZW5hbmN5IGNsYXVzZS4KCkEgdGVybWluYXRpb24gY2xhdXNlLg==" is the
    base64 of the two paragraphs "A tenancy clause." and
    "A termination clause.". *)
Definition lease : IngestItem.t :=
  {| IngestItem.client := lit "Acme";
     IngestItem.filename := lit "lease.txt";
     IngestItem.content_b64 :=
       lit "QSB0ZW5hbmN5IGNsYXVzZS4KCkEgdGVybWluYXRpb24gY2xhdXNlLg==" |}.

Definition garbled : IngestItem.t :=
  {| IngestItem.client := lit "Acme";
     IngestItem.filename := lit "lease.txt";
     IngestItem.content_b64 := lit "%%%" |}.

Definition question : AskRequest.t :=
  {| AskRequest.client := lit "Acme";
     AskRequest.q := lit "What does the termination clause say?";
     AskRequest.top_k := 1 |}.

End Demo.

(** ** More requests and answers for that deployment *)

Module Scenario.

Import Demo.

(** The base64 of the single paragraph "A tenancy clause.", under the
    filename of [Demo.lease]. *)
Definition short_lease : IngestItem.t :=
  {| IngestItem.client := lit "Acme";
     IngestItem.filename := lit "lease.txt";
     IngestItem.content_b64 := lit "QSB0ZW5hbmN5IGNsYXVzZS4=" |}.

(** The base64 of a space, two newlines and a space. *)
Definition blank_document : IngestItem.t :=
  {| IngestItem.client := lit "Acme";
     IngestItem.filename := lit "blank.txt";
     IngestItem.content_b64 := lit "IAoKIA==" |}.

(** The base64 of "ABCD", broken over two lines. *)
Definition wrapped : pystr := lit "QUJD" ++ [LF] ++ lit "RA==".

(** The response to a successful ingest of [Demo.lease]. *)
Definition lease_response : json :=
  JDict [(lit "ok", JBool true); (lit "client", JStr (lit "Acme"));
         (lit "filename", JStr (lit "lease.txt")); (lit "added", JInt 2)].

(** A store answering with two hits, the second without a filename. *)
Definition two_hits (rows : gmap pystr (Row vec)) (q : pystr) (k : Z)
    : option QueryResult :=
  Some {| documents := [[lit "A termination clause."; lit "A tenancy clause."]];
          metadatas := [[lease_meta; ∅]] |}.

Definition chat_down (message : pystr) : option (Response pystr) :=
  Some {| status_code := 500; text := lit "upstream down"; payload := None |}.

End Scenario.

(** ** Further vocabulary *)

(** A string of whitespace only. *)
Definition blank (s : pystr) : Prop := Forall (fun c => is_space c = true) s.

(** A string with no trailing whitespace. *)
Definition rstripped (s : pystr) : Prop :=
  forall c, last s = Some c -> is_space c = false.

(** [t] is [p] with its surrounding whitespace trimmed: [p] is [t] between
    two runs of whitespace, and [t] neither starts nor ends with
    whitespace. *)
Definition trimmed (p t : pystr) : Prop :=
  exists l r, p = l ++ t ++ r /\ blank l /\ blank r /\ lstripped t /\ rstripped t.

(** [pieces] cut [text] at blank lines: the text is the pieces with two
    consecutive newlines between each piece and the next, and no piece
    holds two consecutive newlines.  (Where three or more newlines follow
    one another the cut is not unique.) *)
Definition blank_line_cut (text : pystr) (pieces : list pystr) : Prop :=
  join blank_line pieces = text /\ Forall no_blank_line pieces.

(** [c] occurs in [s] as a contiguous substring. *)
Definition substring (c s : pystr) : Prop := exists l1 l2, s = l1 ++ c ++ l2.

(** A decimal digit. *)
Definition is_digit (c : N) : bool := (48 <=? c) && (c <=? 57).

(** A character [a2b_base64] does not pass over: one of the alphabet, or
    the padding character. *)
Definition b64_significant (c : N) : bool :=
  match Base64.table_a2b c with
  | Some _ => true
  | None => c =? Base64.PAD
  end.

(** The calls of the embedding capability recorded in a log. *)
Definition embed_calls {vec} (l : list (event vec)) : list (list pystr) :=
  omap (fun e => match e with
                 | EmbedRequest texts => Some texts
                 | _ => None
                 end) l.

(** * Properties *)

(** ** Strings *)

Section StringFacts.

Lemma N_of_ascii_inj : Inj (=) (=) (fun a : ascii => N_of_ascii a).
Proof.
  intros a b H.
  rewrite <- (ascii_N_embedding a), <- (ascii_N_embedding b). by rewrite H.
Qed.

Lemma lit_inj (s1 s2 : string) : lit s1 = lit s2 -> s1 = s2.
Proof.
  unfold lit. intros H.
  apply (list_fmap_eq_inj _ N_of_ascii_inj) in H.
  rewrite <- (String.string_of_list_ascii_of_string s1).
  rewrite <- (String.string_of_list_ascii_of_string s2).
  by rewrite H.
Qed.

Lemma str_of_nat_inj (i j : nat) : str_of_nat i = str_of_nat j -> i = j.
Proof.
  unfold str_of_nat. intros H. apply lit_inj in H.
  by apply (inj pretty) in H.
Qed.

Lemma is_space_LF : is_space LF = true.
Proof. reflexivity. Qed.

Lemma lstrip_suffix (s : pystr) : exists a, s = a ++ lstrip s.
Proof.
  induction s as [|c s [a IH]]; simpl.
  - by exists [].
  - destruct (is_space c).
    + exists (c :: a). simpl. by rewrite <- IH.
    + by exists [].
Qed.

Lemma lstrip_lstripped (s : pystr) : lstripped (lstrip s).
Proof.
  induction s as [|c s IH]; simpl; [done|].
  destruct (is_space c) eqn:E; [done|]. simpl. done.
Qed.

Lemma lstrip_id (s : pystr) : lstripped s -> lstrip s = s.
Proof. destruct s as [|c s]; simpl; [done|]. by intros ->. Qed.

Lemma lstrip_idemp (s : pystr) : lstrip (lstrip s) = lstrip s.
Proof. apply lstrip_id, lstrip_lstripped. Qed.

Lemma rstrip_prefix (s : pystr) : exists b, s = rstrip s ++ b.
Proof.
  unfold rstrip. destruct (lstrip_suffix (reverse s)) as [a Ha].
  exists (reverse a). rewrite <- reverse_app, <- Ha. by rewrite reverse_involutive.
Qed.

Lemma rstrip_idemp (s : pystr) : rstrip (rstrip s) = rstrip s.
Proof. unfold rstrip. by rewrite reverse_involutive, lstrip_idemp. Qed.

Lemma rstrip_last (s : pystr) (c : N) :
  last (rstrip s) = Some c -> is_space c = false.
Proof.
  unfold rstrip. rewrite last_reverse.
  pose proof (lstrip_lstripped (reverse s)) as H.
  destruct (lstrip (reverse s)) as [|x l]; simpl; [done|].
  intros [= <-]. exact H.
Qed.

Lemma rstrip_lstripped (s : pystr) : lstripped s -> lstripped (rstrip s).
Proof.
  intros H. destruct (rstrip_prefix s) as [b Hb].
  destruct (rstrip s) as [|x r]; [done|].
  rewrite Hb in H. exact H.
Qed.

Lemma strip_idemp (s : pystr) : strip (strip s) = strip s.
Proof.
  unfold strip.
  rewrite (lstrip_id (rstrip (lstrip s))).
  - apply rstrip_idemp.
  - apply rstrip_lstripped, lstrip_lstripped.
Qed.

Lemma strip_infix (s : pystr) : exists a b, s = a ++ strip s ++ b.
Proof.
  unfold strip. destruct (lstrip_suffix s) as [a Ha].
  destruct (rstrip_prefix (lstrip s)) as [b Hb].
  exists a, b. by rewrite <- Hb.
Qed.

Lemma strip_last (s : pystr) (c : N) :
  last (strip s) = Some c -> c <> LF.
Proof.
  intros H ->. apply rstrip_last in H. by rewrite is_space_LF in H.
Qed.

Lemma strip_sublist (s : pystr) : strip s `sublist_of` s.
Proof.
  destruct (strip_infix s) as (a & b & H). rewrite H at 2.
  apply sublist_inserts_l, sublist_inserts_r. done.
Qed.

Lemma no_blank_line_strip (s : pystr) :
  no_blank_line s -> no_blank_line (strip s).
Proof.
  intros H l1 l2 E. destruct (strip_infix s) as (a & b & Hs).
  apply (H (a ++ l1) (l2 ++ b)). rewrite Hs, E.
  by rewrite <- !app_assoc.
Qed.

Lemma no_blank_line_tail (c : N) (s : pystr) :
  no_blank_line (c :: s) -> no_blank_line s.
Proof. intros H l1 l2 E. apply (H (c :: l1) l2). by rewrite E. Qed.

End StringFacts.

(** ** Splitting on the paragraph separator *)

Section SplitFacts.

Lemma split_blank_sep (s : pystr) :
  split blank_line (LF :: LF :: s) = [] :: split blank_line s.
Proof. reflexivity. Qed.

Lemma split_blank_last (c : N) : split blank_line [c] = [[c]].
Proof.
  unfold split, blank_line. simpl. by rewrite andb_false_r.
Qed.

Lemma split_blank_step (c c2 : N) (s : pystr) :
  ~ (c = LF /\ c2 = LF) ->
  split blank_line (c :: c2 :: s) = cons_head c (split blank_line (c2 :: s)).
Proof.
  intros H. unfold split, blank_line. cbn [split_from starts_with].
  destruct (LF =? c) eqn:E1; [|done].
  destruct (LF =? c2) eqn:E2; [|done].
  apply N.eqb_eq in E1, E2. destruct H. by split.
Qed.

(** The three cases of one step of the scan. *)
Lemma split_blank_cases (s : pystr) :
  s = []
  \/ (exists c, s = [c])
  \/ (exists s', s = LF :: LF :: s')
  \/ (exists c c2 s', s = c :: c2 :: s' /\ ~ (c = LF /\ c2 = LF)).
Proof.
  destruct s as [|c [|c2 s']]; [by left | right; left; by eexists |].
  destruct (decide (c = LF /\ c2 = LF)) as [[-> ->]|Hn].
  - right; right; left. by eexists.
  - right; right; right. by exists c, c2, s'.
Qed.

Lemma split_first_prefix (s : pystr) :
  exists p ps, split blank_line s = p :: ps /\ p `prefix_of` s.
Proof.
  induction s as [|c s IH].
  - exists [], []. split; [done | by exists []].
  - destruct s as [|c2 s'].
    + exists [c], []. split; [apply split_blank_last | done].
    + destruct (decide (c = LF /\ c2 = LF)) as [[-> ->]|Hn].
      * exists [], (split blank_line s'). split; [apply split_blank_sep|].
        apply prefix_nil.
      * destruct IH as (p & ps & Hp & Hpre).
        exists (c :: p), ps. rewrite split_blank_step, Hp by done.
        split; [done | by apply prefix_cons].
Qed.

Lemma no_blank_line_nil : no_blank_line [].
Proof. intros [|x l1] l2 E; discriminate E. Qed.

Lemma no_blank_line_singleton (c : N) : no_blank_line [c].
Proof. intros [|x [|y l1]] l2 E; discriminate E. Qed.

Lemma no_blank_line_cons (c c2 : N) (p s : pystr) :
  ~ (c = LF /\ c2 = LF) -> p `prefix_of` c2 :: s ->
  no_blank_line p -> no_blank_line (c :: p).
Proof.
  intros Hn [k Hk] Hp [|x l1] l2 E.
  - simpl in E. injection E as -> ->.
    simpl in Hk. injection Hk as ->. by apply Hn.
  - simpl in E. injection E as _ E. by apply (Hp l1 l2).
Qed.

(** Every piece of a split is free of the separator. *)
Lemma split_pieces_no_blank (s : pystr) :
  Forall no_blank_line (split blank_line s).
Proof.
  remember (List.length s) as n eqn:Hn.
  revert s Hn. induction n as [n IH] using lt_wf_ind. intros s Hn.
  destruct (split_blank_cases s) as [->|[[c ->]|[[s' ->]|(c & c2 & s' & -> & Hne)]]].
  - repeat constructor. apply no_blank_line_nil.
  - rewrite split_blank_last. repeat constructor. apply no_blank_line_singleton.
  - rewrite split_blank_sep. constructor; [apply no_blank_line_nil|].
    apply (IH (List.length s')); [simpl in Hn; lia | done].
  - rewrite split_blank_step by done.
    pose proof (IH (List.length (c2 :: s')) ltac:(simpl in *; lia) _ eq_refl) as HF.
    destruct (split_first_prefix (c2 :: s')) as (p & ps & Hp & Hpre).
    rewrite Hp in HF |- *. simpl. inversion HF as [|? ? Hp1 Hps]; subst.
    constructor; [|done]. by eapply no_blank_line_cons.
Qed.

Lemma join_cons_head (c : N) (l : list pystr) :
  l <> [] -> join blank_line (cons_head c l) = c :: join blank_line l.
Proof. destruct l as [|p [|p' l]]; done. Qed.

Lemma split_nonempty (s : pystr) : split blank_line s <> [].
Proof. destruct (split_first_prefix s) as (p & ps & -> & _). done. Qed.

(** Joining the pieces with the separator gives the text back. *)
Lemma join_split (s : pystr) : join blank_line (split blank_line s) = s.
Proof.
  remember (List.length s) as n eqn:Hn.
  revert s Hn. induction n as [n IH] using lt_wf_ind. intros s Hn.
  destruct (split_blank_cases s) as [->|[[c ->]|[[s' ->]|(c & c2 & s' & -> & Hne)]]].
  - done.
  - by rewrite split_blank_last.
  - rewrite split_blank_sep.
    pose proof (IH (List.length s') ltac:(simpl in *; lia) _ eq_refl) as E.
    pose proof (split_nonempty s') as Hs.
    destruct (split blank_line s') as [|p ps]; [done|].
    change (join blank_line ([] :: p :: ps))
      with (blank_line ++ join blank_line (p :: ps)).
    by rewrite E.
  - rewrite split_blank_step by done.
    rewrite join_cons_head by apply split_nonempty.
    f_equal. by apply (IH (List.length (c2 :: s')) ltac:(simpl in *; lia)).
Qed.

(** A separator-free piece that does not end in a newline, followed by the
    separator, is split off whole. *)
Lemma split_piece (p rest : pystr) :
  no_blank_line p -> last p <> Some LF ->
  split blank_line (p ++ blank_line ++ rest) = p :: split blank_line rest.
Proof.
  induction p as [|c p IH]; intros Hnb Hlast.
  - apply split_blank_sep.
  - destruct p as [|c2 p].
    + simpl. rewrite split_blank_step.
      * by rewrite split_blank_sep.
      * intros [-> _]. by apply Hlast.
    + change ((c :: c2 :: p) ++ blank_line ++ rest)
        with (c :: c2 :: (p ++ blank_line ++ rest)).
      rewrite split_blank_step.
      * change (c2 :: p ++ blank_line ++ rest)
          with ((c2 :: p) ++ blank_line ++ rest).
        rewrite IH; [done | by eapply no_blank_line_tail | done].
      * intros [-> ->]. by apply (Hnb [] p).
Qed.

Lemma split_whole (p : pystr) :
  no_blank_line p -> split blank_line p = [p].
Proof.
  induction p as [|c p IH]; intros Hnb; [done|].
  destruct p as [|c2 p]; [apply split_blank_last|].
  rewrite split_blank_step.
  - rewrite IH; [done | by eapply no_blank_line_tail].
  - intros [-> ->]. by apply (Hnb [] p).
Qed.

End SplitFacts.

(** ** The chunker *)

Section ChunkFacts.

Lemma chunk_pieces_cons (p : pystr) (ps : list pystr) :
  chunk_pieces (p :: ps) =
  if truthy (strip p) then strip p :: chunk_pieces ps else chunk_pieces ps.
Proof.
  unfold chunk_pieces. rewrite filter_cons.
  destruct (truthy (strip p)) eqn:E.
  - rewrite decide_True by done. done.
  - rewrite decide_False by done. done.
Qed.

Lemma truthy_true (s : pystr) : truthy s = true <-> s <> [].
Proof. destruct s; simpl; split; done. Qed.

Lemma chunk_pieces_as_specified (ps : list pystr) :
  chunk_pieces ps = filter (fun c => c <> []) (strip <$> ps).
Proof.
  induction ps as [|p ps IH]; [done|].
  rewrite chunk_pieces_cons, fmap_cons, filter_cons, IH.
  destruct (truthy (strip p)) eqn:E.
  - rewrite decide_True; [done | by apply truthy_true].
  - rewrite decide_False; [done|].
    intros H. apply truthy_true in H. congruence.
Qed.

Lemma chunk_pieces_clean (ps : list pystr) :
  Forall no_blank_line ps -> Forall clean_chunk (chunk_pieces ps).
Proof.
  induction 1 as [|p ps Hp Hps IH]; [constructor|].
  rewrite chunk_pieces_cons.
  destruct (truthy (strip p)) eqn:E; [|done].
  constructor; [|done].
  repeat split.
  - by apply truthy_true.
  - apply strip_idemp.
  - by apply no_blank_line_strip.
Qed.

(** The chunker emits clean chunks only. *)
Lemma chunk_clean (text : pystr) : Forall clean_chunk (chunk text).
Proof. apply chunk_pieces_clean, split_pieces_no_blank. Qed.

Lemma clean_chunk_last (c : pystr) : clean_chunk c -> last c <> Some LF.
Proof.
  intros (_ & Hs & _) H. rewrite <- Hs in H. by apply strip_last in H.
Qed.

(** Chunking a blank-line join of clean chunks gives the chunks back. *)
Lemma chunk_join (cs : list pystr) :
  Forall clean_chunk cs -> chunk (join blank_line cs) = cs.
Proof.
  induction 1 as [|c cs Hc Hcs IH]; [done|].
  pose proof Hc as (Hne & Hstrip & Hnb).
  assert (Ht : truthy (strip c) = true) by (rewrite Hstrip; by apply truthy_true).
  destruct cs as [|c' cs].
  - unfold chunk. simpl. rewrite split_whole by done.
    by rewrite chunk_pieces_cons, Ht, Hstrip.
  - change (join blank_line (c :: c' :: cs))
      with (c ++ blank_line ++ join blank_line (c' :: cs)).
    unfold chunk. rewrite split_piece by (done || by apply clean_chunk_last).
    rewrite chunk_pieces_cons, Ht, Hstrip. f_equal. exact IH.
Qed.

Lemma chunk_pieces_sublist (ps : list pystr) :
  concat (chunk_pieces ps) `sublist_of` join blank_line ps.
Proof.
  induction ps as [|p ps IH]; [done|].
  rewrite chunk_pieces_cons.
  assert (Hj : exists k, join blank_line (p :: ps) = p ++ k
                         /\ join blank_line ps `sublist_of` k).
  { destruct ps as [|p' ps].
    - exists []. by rewrite app_nil_r.
    - exists (blank_line ++ join blank_line (p' :: ps)). split; [done|].
      by apply sublist_inserts_l. }
  destruct Hj as (k & -> & Hk).
  destruct (truthy (strip p)).
  - simpl. apply sublist_app; [apply strip_sublist | by etrans].
  - apply sublist_inserts_l. by etrans.
Qed.

Lemma chunk_pieces_app (ps qs : list pystr) :
  chunk_pieces (ps ++ qs) = chunk_pieces ps ++ chunk_pieces qs.
Proof. unfold chunk_pieces. by rewrite filter_app, fmap_app. Qed.

Lemma strip_cons_LF (p : pystr) : strip (LF :: p) = strip p.
Proof. reflexivity. Qed.

Lemma strip_snoc_LF (p : pystr) : strip (p ++ [LF]) = strip p.
Proof.
  unfold strip.
  assert (Hr : forall q, rstrip (q ++ [LF]) = rstrip q).
  { intros q. unfold rstrip. by rewrite reverse_snoc. }
  induction p as [|c p IH]; [done|].
  cbn [app lstrip]. destruct (is_space c); [done|].
  apply (Hr (c :: p)).
Qed.

Lemma cons_head_app (c : N) (p : pystr) (ps qs : list pystr) :
  cons_head c ((p :: ps) ++ qs) = cons_head c (p :: ps) ++ qs.
Proof. reflexivity. Qed.

(** A leading newline does not change the chunks. *)
Lemma chunk_cons_LF (text : pystr) : chunk (LF :: text) = chunk text.
Proof.
  induction text as [|c text IH]; [done|].
  destruct (decide (c = LF)) as [->|Hc].
  - unfold chunk at 1. rewrite split_blank_sep, chunk_pieces_cons.
    change (truthy (strip [])) with false. cbv iota. by rewrite IH.
  - unfold chunk. rewrite split_blank_step by (by intros [_ ?]).
    destruct (split_first_prefix (c :: text)) as (p & ps & -> & _).
    cbn [cons_head]. by rewrite !chunk_pieces_cons, strip_cons_LF.
Qed.

(** The pieces of [a ++ "\n\n" ++ b] are those of [a] followed by those of
    [b], except that a newline ending the last piece of [a] pairs with the
    first newline of the separator and leaves the second one to [b]. *)
Lemma split_app_blank_line (a b : pystr) :
  exists ps q,
    split blank_line a = ps ++ [q]
    /\ (split blank_line (a ++ blank_line ++ b) = ps ++ [q] ++ split blank_line b
        \/ exists q',
             q = q' ++ [LF]
             /\ split blank_line (a ++ blank_line ++ b)
                = ps ++ [q'] ++ split blank_line (LF :: b)).
Proof.
  remember (List.length a) as n eqn:Hn.
  revert a Hn. induction n as [n IH] using lt_wf_ind. intros a Hn.
  destruct (split_blank_cases a) as [->|[[c ->]|[[a' ->]|(c & c2 & a' & -> & Hne)]]].
  - exists [], []. split; [done|]. left. apply split_blank_sep.
  - exists [], [c]. split; [apply split_blank_last|].
    destruct (decide (c = LF)) as [->|Hc].
    + right. exists []. split; [done|]. apply split_blank_sep.
    + left. change ([c] ++ blank_line ++ b) with (c :: LF :: LF :: b).
      rewrite split_blank_step by (by intros [? _]).
      by rewrite split_blank_sep.
  - destruct (IH (List.length a') ltac:(simpl in *; lia) a' eq_refl)
      as (ps & q & Ha & Hab).
    exists ([] :: ps), q. rewrite split_blank_sep, Ha. split; [done|].
    change ((LF :: LF :: a') ++ blank_line ++ b)
      with (LF :: LF :: (a' ++ blank_line ++ b)).
    rewrite split_blank_sep.
    destruct Hab as [->|(q' & -> & ->)]; [by left|].
    right. by exists q'.
  - destruct (IH (List.length (c2 :: a')) ltac:(simpl in *; lia) (c2 :: a') eq_refl)
      as (ps & q & Ha & Hab).
    change ((c :: c2 :: a') ++ blank_line ++ b)
      with (c :: c2 :: (a' ++ blank_line ++ b)).
    rewrite !split_blank_step by done.
    change (c2 :: a' ++ blank_line ++ b) with ((c2 :: a') ++ blank_line ++ b).
    rewrite Ha. destruct ps as [|p0 ps].
    + exists [], (c :: q). split; [done|].
      destruct Hab as [->|(q' & -> & ->)]; [by left|].
      right. by exists (c :: q').
    + exists ((c :: p0) :: ps), q. split; [done|].
      destruct Hab as [->|(q' & -> & ->)]; [by left|].
      right. by exists q'.
Qed.

Lemma chunk_app_blank_line (a b : pystr) :
  chunk (a ++ blank_line ++ b) = chunk a ++ chunk b.
Proof.
  destruct (split_app_blank_line a b) as (ps & q & Ha & Hab).
  unfold chunk at 1 2. rewrite Ha.
  destruct Hab as [->|(q' & -> & ->)].
  - by rewrite !chunk_pieces_app, <- app_assoc.
  - rewrite !chunk_pieces_app, <- app_assoc. fold (chunk (LF :: b)).
    rewrite chunk_cons_LF. do 2 f_equal.
    by rewrite !chunk_pieces_cons, strip_snoc_LF.
Qed.

(** Trimming, characterised without reference to [strip]. *)
Lemma lstrip_cut (s : pystr) : exists a, s = a ++ lstrip s /\ blank a.
Proof.
  induction s as [|c s (a & IH & Ha)]; simpl.
  - exists []. split; [done | apply Forall_nil_2].
  - destruct (is_space c) eqn:E.
    + exists (c :: a). split; [simpl; by rewrite <- IH | by apply Forall_cons_2].
    + exists []. split; [done | apply Forall_nil_2].
Qed.

Lemma rstrip_cut (s : pystr) : exists b, s = rstrip s ++ b /\ blank b.
Proof.
  unfold rstrip. destruct (lstrip_cut (reverse s)) as (a & Ha & Hb).
  exists (reverse a). split.
  - rewrite <- reverse_app, <- Ha. by rewrite reverse_involutive.
  - unfold blank. by apply Forall_reverse.
Qed.

Lemma strip_trimmed (p : pystr) : trimmed p (strip p).
Proof.
  unfold strip. destruct (lstrip_cut p) as (l & Hl & Hbl).
  destruct (rstrip_cut (lstrip p)) as (r & Hr & Hbr).
  exists l, r. split_and!; [by rewrite <- Hr | done | done | |].
  - apply rstrip_lstripped, lstrip_lstripped.
  - intros c. apply rstrip_last.
Qed.

Lemma lstrip_blank_app (l s : pystr) : blank l -> lstrip (l ++ s) = lstrip s.
Proof.
  intros H. induction H as [|c l Hc _ IH]; [done|]. simpl. by rewrite Hc.
Qed.

Lemma rstrip_app_blank (s r : pystr) : blank r -> rstrip (s ++ r) = rstrip s.
Proof.
  intros Hr. unfold rstrip. rewrite reverse_app, lstrip_blank_app; [done|].
  unfold blank. by apply Forall_reverse.
Qed.

Lemma rstrip_rstripped (t : pystr) : rstripped t -> rstrip t = t.
Proof.
  intros Ht. unfold rstrip. rewrite lstrip_id; [apply reverse_involutive|].
  unfold rstripped in Ht. rewrite <- (reverse_involutive t), last_reverse in Ht.
  destruct (reverse t) as [|c u]; [done|]. simpl. by apply Ht.
Qed.

(** What [trimmed] relates a piece to is what [strip] computes. *)
Lemma trimmed_strip (p t : pystr) : trimmed p t -> t = strip p.
Proof.
  intros (l & r & -> & Hl & Hr & Ht1 & Ht2). unfold strip.
  rewrite lstrip_blank_app by done.
  destruct t as [|c t].
  - simpl. rewrite <- (app_nil_r r), lstrip_blank_app by done. done.
  - rewrite lstrip_id by exact Ht1. rewrite rstrip_app_blank by done.
    by rewrite rstrip_rstripped.
Qed.

Lemma trimmed_pieces (pieces trims : list pystr) :
  Forall2 trimmed pieces trims -> trims = strip <$> pieces.
Proof.
  induction 1 as [|p t ps ts Ht _ IH]; [done|].
  rewrite fmap_cons. f_equal; [by apply trimmed_strip | done].
Qed.

(** The chunks of a text, from any cut of it at blank lines. *)
Lemma chunk_of_cut (pieces : list pystr) :
  Forall no_blank_line pieces ->
  chunk (join blank_line pieces) = chunk_pieces pieces.
Proof.
  induction 1 as [|p ps Hp Hps IH]; [reflexivity|].
  assert (Hone : chunk p = chunk_pieces [p]).
  { unfold chunk. by rewrite split_whole. }
  destruct ps as [|q ps]; [exact Hone|].
  change (join blank_line (p :: q :: ps))
    with (p ++ blank_line ++ join blank_line (q :: ps)).
  rewrite chunk_app_blank_line, IH, Hone.
  symmetry. apply (chunk_pieces_app [p]).
Qed.

Lemma split_alone_no_blank (p : pystr) :
  split blank_line p = [p] -> no_blank_line p.
Proof.
  intros H. pose proof (split_pieces_no_blank p) as HF.
  rewrite H in HF. by inversion HF.
Qed.

(** C4. For every text, the chunker of [ingest_json] yields exactly the
    sequence obtained by splitting the text on two consecutive newlines,
    trimming each piece and discarding the pieces that became empty, in
    the order of the text.  Splitting and trimming are taken here as the
    specification words them, not as the code computes them: for every
    cut of the text into pieces with two consecutive newlines between
    them and none inside them, and for every trimming of those pieces
    (each piece is its trimmed form between two runs of whitespace, and
    the trimmed form neither starts nor ends with whitespace), the chunks
    are the trimmed pieces, in order, without the empty ones.  The pieces
    [split] computes are such a cut, and what [strip] computes is such a
    trimming; so the chunks are also [chunk_as_specified], the pieces join
    back to the text, and the chunks occur in the text in their original
    relative order. *)
Theorem chunk_is_split_strip_filter (text : pystr) :
  chunk text = chunk_as_specified text
  /\ join blank_line (split blank_line text) = text
  /\ concat (chunk text) `sublist_of` text
  /\ blank_line_cut text (split blank_line text)
  /\ (forall p, trimmed p (strip p))
  /\ (forall pieces trims,
        blank_line_cut text pieces ->
        Forall2 trimmed pieces trims ->
        chunk text = filter (fun c => c <> []) trims).
Proof.
  split; [apply chunk_pieces_as_specified|].
  split; [apply join_split|].
  split; [rewrite <- (join_split text) at 2; apply chunk_pieces_sublist|].
  split; [split; [apply join_split | apply split_pieces_no_blank]|].
  split; [apply strip_trimmed|].
  intros pieces trims [<- Hnb] Htrim.
  rewrite chunk_of_cut by done.
  by rewrite chunk_pieces_as_specified, (trimmed_pieces _ _ Htrim).
Qed.

(** C8. Chunking is idempotent on its own output: joining [chunk text] with
    blank lines and chunking again yields [chunk text]. *)
Theorem chunk_idempotent (text : pystr) :
  chunk (join blank_line (chunk text)) = chunk text.
Proof. apply chunk_join, chunk_clean. Qed.

End ChunkFacts.

(** ** The store and the monad *)

Section ServerFacts.

Context {vec : Type}.
Variable ACTION_KEY : option pystr.
Variable str_lower : pystr -> pystr.
Variable valid_name : pystr -> bool.
Variable embeddings_api : list pystr -> option (Response (list vec)).
Variable chat_api : pystr -> option (Response pystr).
Variable similarity : gmap pystr (Row vec) -> pystr -> Z -> option QueryResult.

Implicit Types (w : World vec) (s : Store vec) (x : option pystr).

Lemma check_action_key_eq x w :
  check_action_key ACTION_KEY x w =
  if key_accepted ACTION_KEY x then (Return tt, w)
  else (Raise (HTTPException 401 (lit "Invalid action key")), w).
Proof.
  unfold check_action_key, key_accepted.
  by destruct (key_configured ACTION_KEY && negb (bool_decide (x = ACTION_KEY))).
Qed.

Lemma lookup_resolved name s :
  resolved name s !! name = Some (partition name s).
Proof.
  unfold resolved, partition.
  destruct (s !! name) as [c|] eqn:E; simpl; [done|].
  by rewrite lookup_insert_eq.
Qed.

Lemma lookup_resolved_ne name name' s :
  name <> name' -> resolved name s !! name' = s !! name'.
Proof.
  intros Hne. unfold resolved.
  destruct (s !! name); [done|]. by rewrite lookup_insert_ne.
Qed.

Lemma resolved_keeps name name' s :
  is_Some (s !! name') -> is_Some (resolved name s !! name').
Proof.
  intros H. destruct (decide (name = name')) as [->|Hne].
  - rewrite lookup_resolved. by eexists.
  - by rewrite lookup_resolved_ne.
Qed.

(** Resolution: the lookup returns an existing partition; otherwise the
    creation is attempted, and succeeds when the store accepts the name. *)
Lemma ensure_collection_eq client w :
  ensure_collection str_lower valid_name client w =
  if resolvable valid_name (collection_name str_lower client) (store w)
  then (Return (collection_name str_lower client),
        mkWorld (resolved (collection_name str_lower client) (store w))
          (log w ++ resolve_events (collection_name str_lower client) (store w)))
  else (Raise PyError,
        mkWorld (store w)
          (log w ++ resolve_events (collection_name str_lower client) (store w))).
Proof.
  unfold ensure_collection, try_except, get_collection, create_collection,
    resolvable, resolved, resolve_events, bind, emit, get_store, put_store,
    ret, raise.
  simpl.
  destruct (store w !! collection_name str_lower client) eqn:E; simpl; [done|].
  destruct (valid_name (collection_name str_lower client)); simpl.
  - rewrite E. by rewrite <- app_assoc.
  - by rewrite <- app_assoc.
Qed.

Lemma resolvable_present name s :
  is_Some (s !! name) -> resolvable valid_name name s = true.
Proof. intros [c Hc]. unfold resolvable. by rewrite Hc. Qed.

Lemma col_query_eq col q k w rows :
  store w !! col = Some rows ->
  col_query similarity col q k w =
  (match similarity rows q k with
   | Some r => Return r
   | None => Raise PyError
   end, mkWorld (store w) (log w ++ [Query col q k])).
Proof.
  intros H. unfold col_query, bind, emit, get_store, ret, raise. simpl.
  rewrite H. by destruct (similarity rows q k).
Qed.

Lemma col_count_eq col w rows :
  store w !! col = Some rows ->
  col_count col w =
  (Return (Z.of_nat (size rows)), mkWorld (store w) (log w ++ [Count col])).
Proof.
  intros H. unfold col_count, bind, emit, get_store, ret. simpl. by rewrite H.
Qed.

Lemma embed_texts_eq texts w :
  embed_texts embeddings_api texts w =
  (match embeddings_api texts with
   | None => Raise PyError
   | Some resp =>
       if (status_code resp =? 200)%Z
       then match payload resp with
            | Some data => Return data
            | None => Raise PyError
            end
       else Raise (HTTPException 502 (lit "Embed failed: " ++ text resp))
   end, mkWorld (store w) (log w ++ [EmbedRequest texts])).
Proof.
  unfold embed_texts, bind, emit, ret, raise. simpl.
  destruct (embeddings_api texts) as [resp|]; [|done].
  destruct (status_code resp =? 200)%Z; simpl; [|done].
  by destruct (payload resp).
Qed.

Lemma chat_answer_eq question context w :
  chat_answer chat_api question context w =
  (match chat_api (user_message question context) with
   | None => Raise PyError
   | Some r =>
       if (status_code r =? 200)%Z
       then match payload r with
            | Some content => Return content
            | None => Raise PyError
            end
       else Raise (HTTPException 502 (lit "Chat failed: " ++ text r))
   end, mkWorld (store w) (log w ++ [ChatRequest question context])).
Proof.
  unfold chat_answer, bind, emit, ret, raise. simpl.
  destruct (chat_api (user_message question context)) as [r|]; [|done].
  destruct (status_code r =? 200)%Z; simpl; [|done].
  by destruct (payload r).
Qed.

Lemma col_upsert_eq col ids docs metas embeddings w rows :
  store w !! col = Some rows ->
  col_upsert col ids docs metas embeddings w =
  if decide (List.length docs = List.length ids
             /\ List.length metas = List.length ids
             /\ List.length embeddings = List.length ids)
  then (Return tt,
        mkWorld (<[col := write_rows (zip_rows ids docs metas embeddings) rows]> (store w))
                (log w ++ [Upsert col ids docs metas embeddings]))
  else (Raise PyError,
        mkWorld (store w) (log w ++ [Upsert col ids docs metas embeddings])).
Proof.
  intros H. unfold col_upsert, bind, emit, get_store, put_store, ret, raise.
  simpl. rewrite H. by case_decide.
Qed.

(** ** Overwrite-by-id *)

Lemma lookup_write_rows_notin (rows : list (pystr * Row vec)) c k :
  k ∉ rows.*1 -> write_rows rows c !! k = c !! k.
Proof.
  revert c. induction rows as [|[k0 r0] rows IH]; intros c Hk; [done|].
  rewrite fmap_cons, not_elem_of_cons in Hk. destruct Hk as [Hne Hk].
  unfold write_rows in *. simpl. rewrite IH by done.
  by rewrite lookup_insert_ne.
Qed.

Lemma lookup_write_rows (rows : list (pystr * Row vec)) c i k r :
  NoDup rows.*1 -> rows !! i = Some (k, r) -> write_rows rows c !! k = Some r.
Proof.
  revert c i. induction rows as [|[k0 r0] rows IH]; intros c i Hnd Hi; [done|].
  rewrite fmap_cons in Hnd. apply NoDup_cons in Hnd as [Hk0 Hnd].
  destruct i as [|i]; simpl in Hi.
  - injection Hi as -> ->.
    change (write_rows ((k, r) :: rows) c) with (write_rows rows (<[k := r]> c)).
    rewrite lookup_write_rows_notin by done. by rewrite lookup_insert_eq.
  - change (write_rows ((k0, r0) :: rows) c) with (write_rows rows (<[k0 := r0]> c)).
    by eapply IH.
Qed.

Lemma zip_rows_ingest filename (chunks : list pystr) (vecs : list vec) n :
  zip_rows ((fun i => chunk_id filename i) <$> seq n (List.length chunks)) chunks
    ((fun _ => filename_meta filename) <$> chunks) vecs
  = imap (fun i cv => (chunk_id filename (n + i),
                       mkRow cv.1 (filename_meta filename) cv.2))
         (zip chunks vecs).
Proof.
  revert n vecs. induction chunks as [|c chunks IH]; intros n vecs; [done|].
  destruct vecs as [|v vecs]; [done|].
  simpl. rewrite Nat.add_0_r. f_equal.
  rewrite IH. apply imap_ext. intros i cv _. simpl.
  by rewrite Nat.add_succ_r.
Qed.

Lemma chunk_id_inj filename i j :
  chunk_id filename i = chunk_id filename j -> i = j.
Proof.
  unfold chunk_id. intros H.
  apply app_inv_head in H. apply app_inv_head in H.
  by apply str_of_nat_inj.
Qed.

Lemma ingest_rows_keys filename (chunks : list pystr) (vecs : list vec) :
  (ingest_rows filename chunks vecs).*1
  = (fun i => chunk_id filename i) <$> seq 0 (List.length (zip chunks vecs)).
Proof.
  unfold ingest_rows. rewrite fmap_imap.
  rewrite <- (imap_seq_0 (zip chunks vecs) (fun i => chunk_id filename i)).
  done.
Qed.

Lemma ingest_rows_NoDup filename (chunks : list pystr) (vecs : list vec) :
  NoDup (ingest_rows filename chunks vecs).*1.
Proof.
  rewrite ingest_rows_keys. apply NoDup_fmap_2.
  - intros i j. apply chunk_id_inj.
  - apply NoDup_seq.
Qed.

Lemma ingest_rows_lookup filename (chunks : list pystr) (vecs : list vec) i c v :
  chunks !! i = Some c -> vecs !! i = Some v ->
  ingest_rows filename chunks vecs !! i
  = Some (chunk_id filename i, mkRow c (filename_meta filename) v).
Proof.
  intros Hc Hv. unfold ingest_rows. rewrite list_lookup_imap.
  assert (zip chunks vecs !! i = Some (c, v)) as ->; [|done].
  apply lookup_zip_with_Some. by exists c, v.
Qed.

Lemma length_ingest_rows filename (chunks : list pystr) (vecs : list vec) :
  List.length vecs = List.length chunks ->
  List.length (ingest_rows filename chunks vecs) = List.length chunks.
Proof.
  intros H. unfold ingest_rows. rewrite length_imap, length_zip_with. lia.
Qed.

(** ** [ingest_json], path by path *)

(** What one run of [ingest_json] does, as one case analysis on the
    request and on the embedding capability's answer. *)
Lemma ingest_json_eq (item : IngestItem.t) x w :
  ingest_json ACTION_KEY str_lower valid_name embeddings_api item x w =
  let filename := IngestItem.filename item in
  let name := collection_name str_lower (IngestItem.client item) in
  if key_accepted ACTION_KEY x then
    match Base64.b64decode (IngestItem.content_b64 item) with
    | Base64.Failed e =>
        (Raise (HTTPException 400 (lit "Invalid base64: " ++ e)), w)
    | Base64.Decoded content_bytes =>
        let chunks := chunk (Utf8.decode_ignore content_bytes) in
        let embedded := mkWorld (store w) (log w ++ [EmbedRequest chunks]) in
        match chunks with
        | [] => (Raise (HTTPException 400 (lit "No text chunks")), w)
        | _ :: _ =>
            match embeddings_api chunks with
            | None => (Raise PyError, embedded)
            | Some resp =>
                if (status_code resp =? 200)%Z then
                  match payload resp with
                  | None => (Raise PyError, embedded)
                  | Some vecs =>
                      let ids := (fun i => chunk_id filename i)
                                   <$> seq 0 (List.length chunks) in
                      let metas := (fun _ => filename_meta filename) <$> chunks in
                      let events :=
                        log w ++ [EmbedRequest chunks]
                        ++ resolve_events name (store w)
                        ++ [Upsert name ids chunks metas vecs] in
                      if resolvable valid_name name (store w) then
                        if decide (List.length vecs = List.length chunks) then
                          (Return
                             (JDict [(lit "ok", JBool true);
                                     (lit "client", JStr (IngestItem.client item));
                                     (lit "filename", JStr filename);
                                     (lit "added",
                                      JInt (Z.of_nat (List.length chunks)))]),
                           mkWorld
                             (<[name := write_rows (ingest_rows filename chunks vecs)
                                          (partition name (store w))]> (store w))
                             events)
                        else
                          (Raise PyError,
                           mkWorld (resolved name (store w)) events)
                      else
                        (Raise PyError,
                         mkWorld (store w)
                           (log w ++ [EmbedRequest chunks]
                            ++ resolve_events name (store w)))
                  end
                else
                  (Raise (HTTPException 502
                            (lit "Embed failed: " ++ text resp)), embedded)
            end
        end
    end
  else (Raise (HTTPException 401 (lit "Invalid action key")), w).
Proof.
  cbv zeta. unfold ingest_json, bind. rewrite check_action_key_eq.
  destruct (key_accepted ACTION_KEY x); [|done].
  destruct (Base64.b64decode (IngestItem.content_b64 item)) as [content_bytes|e];
    [|done].
  unfold ret at 1.
  destruct (chunk (Utf8.decode_ignore content_bytes)) as [|c cs] eqn:Hchunks;
    [done|].
  cbn [truthy_list negb]. rewrite embed_texts_eq.
  destruct (embeddings_api (c :: cs)) as [resp|]; [|done].
  destruct (status_code resp =? 200)%Z; [|done].
  destruct (payload resp) as [vecs|]; [|done].
  rewrite ensure_collection_eq. cbn [store log].
  destruct (resolvable valid_name _ (store w)); [|by rewrite <- app_assoc].
  erewrite col_upsert_eq by (cbn [store]; apply lookup_resolved).
  cbn [store log].
  rewrite length_fmap, length_seq, length_fmap.
  rewrite <- !app_assoc.
  destruct (decide (List.length vecs = List.length (c :: cs))) as [Hlen|Hlen].
  - rewrite decide_True by done. unfold ret. f_equal. f_equal.
    + rewrite (zip_rows_ingest _ (c :: cs) vecs 0).
      unfold resolved.
      destruct (store w !! collection_name str_lower (IngestItem.client item));
        [done | by rewrite insert_insert_eq].
  - rewrite decide_False by (by intros (_ & _ & ?)). done.
Qed.

(** Case analysis along the paths of [ingest_json]. *)
Ltac ingest_paths :=
  rewrite ingest_json_eq; cbv zeta; repeat case_match.

Lemma ingest_json_store_on_success (item : IngestItem.t) x w resp w' :
  ingest_json ACTION_KEY str_lower valid_name embeddings_api item x w = (Return resp, w') ->
  exists rows,
    store w' = <[collection_name str_lower (IngestItem.client item) := rows]> (store w).
Proof.
  ingest_paths; try done. intros [= <- <-]. by eexists.
Qed.

(** C1. A successful [/ingest_json] whose decoded text splits into the
    chunks [chunks] reports [added == len(chunks)] and upserts, into the
    tenant's partition, exactly the tuples with ids ["<filename>:<i>"] for
    [i] in [0..len(chunks)-1], the chunks in their original order as
    documents, the metadata [{filename: <filename>}] and the embedding
    vectors returned for them; every other id of the partition is left as
    it was. *)
Theorem ingest_json_upserts_chunks (item : IngestItem.t) x w resp w' :
  ingest_json ACTION_KEY str_lower valid_name embeddings_api item x w = (Return resp, w') ->
  exists content_bytes r vecs,
    let filename := IngestItem.filename item in
    let name := collection_name str_lower (IngestItem.client item) in
    let chunks := chunk (Utf8.decode_ignore content_bytes) in
    let id := fun i : nat => filename ++ lit ":" ++ str_of_nat i in
    let file_metadata : metadata := {[ lit "filename" := filename ]} in
    Base64.b64decode (IngestItem.content_b64 item) = Base64.Decoded content_bytes
    /\ embeddings_api chunks = Some r /\ payload r = Some vecs
    /\ List.length vecs = List.length chunks
    /\ Json.get "added" resp = Some (JInt (Z.of_nat (List.length chunks)))
    /\ ingest_rows filename chunks vecs
       = imap (fun i cv => (id i, mkRow cv.1 file_metadata cv.2)) (zip chunks vecs)
    /\ List.length (ingest_rows filename chunks vecs) = List.length chunks
    /\ store w' = <[name := write_rows (ingest_rows filename chunks vecs)
                             (partition name (store w))]> (store w)
    /\ last (log w') =
         Some (Upsert name (id <$> seq 0 (List.length chunks))
                 chunks ((fun _ => file_metadata) <$> chunks) vecs)
    /\ (forall i c v,
          chunks !! i = Some c -> vecs !! i = Some v ->
          partition name (store w') !! id i = Some (mkRow c file_metadata v)
          /\ file_metadata !! lit "filename" = Some filename
          /\ size file_metadata = 1%nat)
    /\ (forall k,
          (forall i, (i < List.length chunks)%nat -> k <> id i) ->
          partition name (store w') !! k = partition name (store w) !! k).
Proof.
  rewrite ingest_json_eq. cbv zeta.
  destruct (key_accepted ACTION_KEY x); [|done].
  destruct (Base64.b64decode (IngestItem.content_b64 item)) as [content_bytes|e];
    [|done].
  destruct (chunk (Utf8.decode_ignore content_bytes)) as [|c cs] eqn:Hchunks;
    [done|].
  destruct (embeddings_api (c :: cs)) as [r|] eqn:Hr; [|done].
  destruct (status_code r =? 200)%Z; [|done].
  destruct (payload r) as [vecs|] eqn:Hvecs; [|done].
  destruct (resolvable valid_name _ (store w)); [|done].
  case_decide as Hlen; [|done].
  intros [= <- <-].
  exists content_bytes, r, vecs. rewrite Hchunks. cbn [store log].
  assert (Hpart : forall rows (s : Store vec) name,
             partition name (<[name := rows]> s) = rows).
  { intros rows s name. unfold partition. by rewrite lookup_insert_eq. }
  split_and!; try done.
  - by apply length_ingest_rows.
  - by rewrite app_comm_cons, app_assoc, last_snoc.
  - intros i c0 v Hc Hv. rewrite Hpart. split_and!.
    + eapply lookup_write_rows; [apply ingest_rows_NoDup|].
      by apply ingest_rows_lookup.
    + apply lookup_singleton_eq.
    + apply map_size_singleton.
  - intros k Hk. rewrite Hpart.
    apply lookup_write_rows_notin.
    rewrite ingest_rows_keys. intros Hin.
    apply list_elem_of_fmap in Hin as (i & -> & Hi).
    apply elem_of_seq in Hi. apply (Hk i); [|done].
    rewrite length_zip_with in Hi. lia.
Qed.

(** C2. A failed [/ingest_json] writes nothing.  Whatever HTTP error the
    request ends in, its status is 401, 400 or 502, the store is the one
    the request found (so every partition, and its count, is unchanged),
    and no store-writing operation was performed.  The failures of the
    taxonomy do end that way: with the key accepted, a base64 decoding
    failure is a 400 "Invalid base64", an empty chunk set is a 400
    "No text chunks", both before any store or remote operation, and a
    non-200 answer of the embedding capability is a 502 after the embedding
    call alone. *)
Theorem failed_ingest_writes_nothing (item : IngestItem.t) x w :
  (forall st detail w',
      ingest_json ACTION_KEY str_lower valid_name embeddings_api item x w
      = (Raise (HTTPException st detail), w') ->
      (st = 401 \/ st = 400 \/ st = 502)%Z
      /\ store w' = store w
      /\ (forall name, size (partition name (store w'))
                       = size (partition name (store w)))
      /\ exists evs, log w' = log w ++ evs
                     /\ Forall (fun e => is_store_write e = false) evs)
  /\ (key_accepted ACTION_KEY x = true ->
      match Base64.b64decode (IngestItem.content_b64 item) with
      | Base64.Failed e =>
          ingest_json ACTION_KEY str_lower valid_name embeddings_api item x w
          = (Raise (HTTPException 400 (lit "Invalid base64: " ++ e)), w)
      | Base64.Decoded content_bytes =>
          (chunk (Utf8.decode_ignore content_bytes) = [] ->
           ingest_json ACTION_KEY str_lower valid_name embeddings_api item x w
           = (Raise (HTTPException 400 (lit "No text chunks")), w))
          /\ (forall resp,
                chunk (Utf8.decode_ignore content_bytes) <> [] ->
                embeddings_api (chunk (Utf8.decode_ignore content_bytes))
                = Some resp ->
                status_code resp <> 200%Z ->
                ingest_json ACTION_KEY str_lower valid_name embeddings_api item x w
                = (Raise (HTTPException 502 (lit "Embed failed: " ++ text resp)),
                   mkWorld (store w)
                     (log w ++ [EmbedRequest
                                  (chunk (Utf8.decode_ignore content_bytes))])))
      end).
Proof.
  rewrite ingest_json_eq. cbv zeta. split.
  - intros st detail w'.
    assert (Hnil : exists evs : list (event vec),
               log w = log w ++ evs /\ Forall (fun e => is_store_write e = false) evs).
    { exists []. by rewrite app_nil_r. }
    destruct (key_accepted ACTION_KEY x); [|intros [= <- <- <-]; eauto 10].
    destruct (Base64.b64decode (IngestItem.content_b64 item)) as [content_bytes|e];
      [|intros [= <- <- <-]; eauto 10].
    destruct (chunk (Utf8.decode_ignore content_bytes)) as [|c cs];
      [intros [= <- <- <-]; eauto 10|].
    destruct (embeddings_api (c :: cs)) as [r|]; [|done].
    destruct (status_code r =? 200)%Z.
    + destruct (payload r) as [vecs|]; [|done].
      destruct (resolvable valid_name _ (store w)); [|done]. by case_decide.
    + intros [= <- <- <-]. cbn [store log]. split_and!; eauto.
  - intros ->.
    destruct (Base64.b64decode (IngestItem.content_b64 item)) as [content_bytes|e];
      [|done].
    split.
    + by intros ->.
    + intros resp Hne Hresp Hst.
      destruct (chunk (Utf8.decode_ignore content_bytes)) as [|c cs]; [done|].
      rewrite Hresp.
      destruct (status_code resp =? 200)%Z eqn:E; [|done].
      by apply Z.eqb_eq in E.
Qed.

(** ** [ask], path by path *)

Lemma chat_calls_app (l1 l2 : list (event vec)) :
  chat_calls (l1 ++ l2) = chat_calls l1 ++ chat_calls l2.
Proof. apply omap_app. Qed.

Lemma chat_calls_resolve_events name s :
  chat_calls (resolve_events name s) = [].
Proof. unfold resolve_events. by destruct (s !! name). Qed.

(** The loop of [ask], started at index [n] with [context] and [sources]
    accumulated so far. *)
Lemma fold_ask_step (hits : list (pystr * metadata)) n context sources :
  fold_left ask_step hits (n, context, sources)
  = ((n + List.length hits)%nat,
     context ++ concat (imap (fun i dm =>
                  context_entry (n + i) (hit_filename dm.2) dm.1) hits),
     sources ++ imap (fun i dm =>
                  source_entry (n + i) (hit_filename dm.2) dm.1) hits).
Proof.
  revert n context sources.
  induction hits as [|[d m] hits IH]; intros n context sources.
  - simpl. by rewrite Nat.add_0_r, !app_nil_r.
  - cbn [fold_left ask_step]. rewrite IH. cbn [imap concat List.length fst snd].
    rewrite Nat.add_0_r, <- !app_assoc, Nat.add_succ_r.
    f_equal; [f_equal|]; f_equal.
    + f_equal. f_equal. apply imap_ext. intros i dm _. simpl.
      by rewrite Nat.add_succ_r.
    + simpl. f_equal. apply imap_ext. intros i dm _. simpl.
      by rewrite Nat.add_succ_r.
Qed.

Lemma ask_loop_eq (docs : list pystr) (metas : list metadata) :
  ask_loop docs metas
  = (context_as_specified (zip docs metas), sources_of (zip docs metas)).
Proof.
  unfold ask_loop. rewrite fold_ask_step. simpl. done.
Qed.

(** What one run of [ask] does. *)
Lemma ask_eq (req : AskRequest.t) x w :
  ask ACTION_KEY str_lower valid_name chat_api similarity req x w =
  let name := collection_name str_lower (AskRequest.client req) in
  let q := AskRequest.q req in
  let queried :=
    mkWorld (resolved name (store w))
      (log w ++ resolve_events name (store w)
       ++ [Query name q (AskRequest.top_k req)]) in
  if key_accepted ACTION_KEY x then
    if resolvable valid_name name (store w) then
      match similarity (partition name (store w)) q (AskRequest.top_k req) with
      | None => (Raise PyError, queried)
      | Some r =>
          if no_documents r
          then (Return (JDict [(lit "answer", JStr NOT_FOUND);
                               (lit "sources", JList [])]), queried)
          else
            match documents r, metadatas r with
            | docs :: _, metas :: _ =>
                let hits := zip docs metas in
                let context := context_as_specified hits in
                let asked :=
                  mkWorld (resolved name (store w))
                    (log w ++ resolve_events name (store w)
                     ++ [Query name q (AskRequest.top_k req);
                         ChatRequest q context]) in
                match chat_api (user_message q context) with
                | None => (Raise PyError, asked)
                | Some a =>
                    if (status_code a =? 200)%Z then
                      match payload a with
                      | Some answer =>
                          (Return (JDict [(lit "answer", JStr answer);
                                          (lit "sources",
                                           JList (sources_of hits))]),
                           asked)
                      | None => (Raise PyError, asked)
                      end
                    else
                      (Raise (HTTPException 502 (lit "Chat failed: " ++ text a)),
                       asked)
                end
            | _, _ => (Raise PyError, queried)
            end
      end
    else
      (Raise PyError,
       mkWorld (store w) (log w ++ resolve_events name (store w)))
  else (Raise (HTTPException 401 (lit "Invalid action key")), w).
Proof.
  cbv zeta. unfold ask, bind. rewrite check_action_key_eq.
  destruct (key_accepted ACTION_KEY x); [|done].
  rewrite ensure_collection_eq.
  destruct (resolvable valid_name _ (store w)); [|done].
  erewrite col_query_eq by (cbn [store]; apply lookup_resolved).
  cbn [store log]. rewrite <- !app_assoc.
  destruct (similarity _ _ _) as [r|]; [|done].
  destruct (no_documents r) eqn:Hno; [done|].
  destruct (documents r) as [|docs rest] eqn:Hdocs.
  { unfold no_documents in Hno. by rewrite Hdocs in Hno. }
  cbn [first]. unfold ret at 1.
  destruct (metadatas r) as [|metas rest'] eqn:Hmetas; [done|].
  cbn [first]. unfold ret at 1.
  rewrite ask_loop_eq, chat_answer_eq. cbn [store log].
  rewrite <- !app_assoc. cbn [app].
  destruct (chat_api _) as [a|]; [|done].
  destruct (status_code a =? 200)%Z; [|done].
  by destruct (payload a).
Qed.

(** Case analysis along the paths of [ask]. *)
Ltac ask_paths :=
  rewrite ask_eq; cbv zeta; repeat case_match.

(** C3. An [/ask] whose similarity query returns zero hits is answered
    with the fixed sentinel ["Not found in the provided documents."] and an
    empty sources list; the request resolved and queried the partition and
    did nothing else: the generation capability was not called.  (The
    query runs once the key is accepted and the partition is resolved.) *)
Theorem ask_without_hits_returns_sentinel (req : AskRequest.t) x w r :
  key_accepted ACTION_KEY x = true ->
  resolvable valid_name (collection_name str_lower (AskRequest.client req))
    (store w) = true ->
  similarity (partition (collection_name str_lower (AskRequest.client req)) (store w))
    (AskRequest.q req) (AskRequest.top_k req) = Some r ->
  no_documents r = true ->
  exists w',
    ask ACTION_KEY str_lower valid_name chat_api similarity req x w
    = (Return (JDict [(lit "answer", JStr (lit "Not found in the provided documents."));
                      (lit "sources", JList [])]), w')
    /\ log w' = log w
                ++ resolve_events (collection_name str_lower (AskRequest.client req))
                     (store w)
                ++ [Query (collection_name str_lower (AskRequest.client req))
                      (AskRequest.q req) (AskRequest.top_k req)]
    /\ chat_calls (log w') = chat_calls (log w).
Proof.
  intros Hkey Hres Hsim Hno. rewrite ask_eq. cbv zeta.
  rewrite Hkey, Hres, Hsim, Hno. eexists. split; [done|]. cbn [log].
  split; [done|].
  rewrite !chat_calls_app, chat_calls_resolve_events. simpl.
  by rewrite app_nil_r.
Qed.

(** C5. An [/ask] with [n >= 1] retrieved hits calls the generation
    capability exactly once, with the question and with the context that
    is the concatenation, in the order the store returned the hits, of
    ["[<rank>] <filename>\n<document>\n\n"] for ranks [1..n]: the call is
    logged with that question and context, and the outcome of the request
    is what the capability answers on the message
    ["Question: <question>\n\nContext:\n<context>"]. *)
Theorem ask_context_is_ranked_concatenation (req : AskRequest.t) x w r
    docs metas rest rest' :
  key_accepted ACTION_KEY x = true ->
  resolvable valid_name (collection_name str_lower (AskRequest.client req))
    (store w) = true ->
  similarity (partition (collection_name str_lower (AskRequest.client req)) (store w))
    (AskRequest.q req) (AskRequest.top_k req) = Some r ->
  documents r = docs :: rest ->
  metadatas r = metas :: rest' ->
  zip docs metas <> [] ->
  exists out w',
    let q := AskRequest.q req in
    let context :=
      concat (imap (fun i dm =>
                      lit "[" ++ str_of_nat (S i) ++ lit "] "
                      ++ default (lit "unknown") (dm.2 !! lit "filename")
                      ++ [LF] ++ dm.1 ++ [LF; LF])
                (zip docs metas)) in
    let message :=
      lit "Question: " ++ q ++ [LF; LF] ++ lit "Context:" ++ [LF] ++ context in
    ask ACTION_KEY str_lower valid_name chat_api similarity req x w = (out, w')
    /\ context = context_as_specified (zip docs metas)
    /\ chat_calls (log w') = chat_calls (log w) ++ [(q, context)]
    /\ last (log w') = Some (ChatRequest q context)
    /\ out = match chat_api message with
             | None => Raise PyError
             | Some a =>
                 if (status_code a =? 200)%Z then
                   match payload a with
                   | Some answer =>
                       Return (JDict [(lit "answer", JStr answer);
                                      (lit "sources",
                                       JList (sources_of (zip docs metas)))])
                   | None => Raise PyError
                   end
                 else Raise (HTTPException 502 (lit "Chat failed: " ++ text a))
             end.
Proof.
  intros Hkey Hres Hsim Hdocs Hmetas Hhits. rewrite ask_eq. cbv zeta.
  rewrite Hkey, Hres, Hsim, Hdocs, Hmetas.
  assert (no_documents r = false) as ->.
  { unfold no_documents. rewrite Hdocs. by destruct docs. }
  change (concat (imap _ (zip docs metas)))
    with (context_as_specified (zip docs metas)).
  change (lit "Question: " ++ AskRequest.q req ++ [LF; LF] ++ lit "Context:"
          ++ [LF] ++ context_as_specified (zip docs metas))
    with (user_message (AskRequest.q req) (context_as_specified (zip docs metas))).
  set (asked := mkWorld _ _).
  assert (Hcalls : chat_calls (log asked)
            = chat_calls (log w)
              ++ [(AskRequest.q req, context_as_specified (zip docs metas))]).
  { unfold asked. cbn [log].
    rewrite !chat_calls_app, chat_calls_resolve_events. done. }
  assert (Hlast : last (log asked)
            = Some (ChatRequest (AskRequest.q req)
                      (context_as_specified (zip docs metas)))).
  { unfold asked. cbn [log].
    rewrite !last_app. done. }
  destruct (chat_api _) as [a|]; [|by eexists _, _].
  destruct (status_code a =? 200)%Z; [|by eexists _, _].
  destruct (payload a); by eexists _, _.
Qed.

(** C6 (amended: the rank is carried by the field [id]). An [/ask] with
    [n >= 1] retrieved hits that the generation capability answers returns
    the generated answer with a sources list of exactly [n] entries in the
    store's ranked order, where entry [i] (1-based) is
    [{id: i, filename: <the hit's filename>, snippet: <the first 240
    characters of the document>}]. *)
Theorem ask_sources_are_ranked_hits (req : AskRequest.t) x w r
    docs metas rest rest' a answer :
  key_accepted ACTION_KEY x = true ->
  resolvable valid_name (collection_name str_lower (AskRequest.client req))
    (store w) = true ->
  similarity (partition (collection_name str_lower (AskRequest.client req)) (store w))
    (AskRequest.q req) (AskRequest.top_k req) = Some r ->
  documents r = docs :: rest ->
  metadatas r = metas :: rest' ->
  zip docs metas <> [] ->
  chat_api (user_message (AskRequest.q req)
              (context_as_specified (zip docs metas))) = Some a ->
  status_code a = 200%Z ->
  payload a = Some answer ->
  exists sources w',
    ask ACTION_KEY str_lower valid_name chat_api similarity req x w
    = (Return (JDict [(lit "answer", JStr answer);
                      (lit "sources", JList sources)]), w')
    /\ List.length sources = List.length (zip docs metas)
    /\ forall i d m,
         zip docs metas !! i = Some (d, m) ->
         sources !! i
         = Some (JDict [(lit "id", JInt (Z.of_nat (S i)));
                        (lit "filename", JStr (hit_filename m));
                        (lit "snippet", JStr (take 240 d))]).
Proof.
  intros Hkey Hres Hsim Hdocs Hmetas Hhits Ha Hst Hanswer.
  rewrite ask_eq. cbv zeta.
  rewrite Hkey, Hres, Hsim, Hdocs, Hmetas, Ha, Hst, Hanswer.
  assert (no_documents r = false) as ->.
  { unfold no_documents. rewrite Hdocs. by destruct docs. }
  cbn [Z.eqb Pos.eqb].
  eexists _, _. split; [done|]. unfold sources_of. split.
  - by rewrite length_imap.
  - intros i d m Hi. rewrite list_lookup_imap, Hi. done.
Qed.

(** ** The API-key check *)

Lemma key_configured_false :
  key_configured ACTION_KEY = false
  <-> ACTION_KEY = None \/ ACTION_KEY = Some [].
Proof.
  unfold key_configured. destruct ACTION_KEY as [[|c k]|]; simpl; split;
    try done; try (by eauto); by intros [|].
Qed.

Lemma key_accepted_false x :
  key_accepted ACTION_KEY x = false
  <-> key_configured ACTION_KEY = true /\ x <> ACTION_KEY.
Proof.
  unfold key_accepted. destruct (key_configured ACTION_KEY); simpl.
  - rewrite negb_involutive, bool_decide_eq_false. tauto.
  - split; [done | by intros [? _]].
Qed.

Lemma ingest_json_not_401 (item : IngestItem.t) x w st detail w' :
  key_accepted ACTION_KEY x = true ->
  ingest_json ACTION_KEY str_lower valid_name embeddings_api item x w
  = (Raise (HTTPException st detail), w') ->
  st <> 401%Z.
Proof.
  intros Hkey. ingest_paths; try done; by intros [= <- _ _].
Qed.

Lemma ask_not_401 (req : AskRequest.t) x w st detail w' :
  key_accepted ACTION_KEY x = true ->
  ask ACTION_KEY str_lower valid_name chat_api similarity req x w
  = (Raise (HTTPException st detail), w') ->
  st <> 401%Z.
Proof.
  intros Hkey. ask_paths; try done; by intros [= <- _ _].
Qed.

(** C7. With a shared secret configured (ACTION_KEY set to a non-empty
    string), an [/ingest_json] or [/ask] request whose [x-api-key] header is
    missing or differs from the secret is rejected with status 401 and the
    world is left exactly as found: nothing was decoded, embedded, stored or
    generated.  A request carrying the secret passes the check, and neither
    handler answers it with a 401. *)
Theorem configured_key_guards_handlers (secret : pystr) x
    (item : IngestItem.t) (req : AskRequest.t) w :
  ACTION_KEY = Some secret ->
  secret <> [] ->
  (x <> Some secret ->
     ingest_json ACTION_KEY str_lower valid_name embeddings_api item x w
     = (Raise (HTTPException 401 (lit "Invalid action key")), w)
     /\ ask ACTION_KEY str_lower valid_name chat_api similarity req x w
        = (Raise (HTTPException 401 (lit "Invalid action key")), w))
  /\ check_action_key ACTION_KEY (Some secret) w = (Return tt, w)
  /\ (forall st detail w',
        ingest_json ACTION_KEY str_lower valid_name embeddings_api item (Some secret) w
        = (Raise (HTTPException st detail), w') -> st <> 401%Z)
  /\ (forall st detail w',
        ask ACTION_KEY str_lower valid_name chat_api similarity req (Some secret) w
        = (Raise (HTTPException st detail), w') -> st <> 401%Z).
Proof.
  intros HK Hne.
  assert (Hconf : key_configured ACTION_KEY = true).
  { rewrite HK. by destruct secret. }
  assert (Hok : key_accepted ACTION_KEY (Some secret) = true).
  { destruct (key_accepted ACTION_KEY (Some secret)) eqn:E; [done|].
    apply key_accepted_false in E as [_ E]. by rewrite HK in E. }
  split_and!.
  - intros Hx.
    assert (Hrej : key_accepted ACTION_KEY x = false).
    { apply key_accepted_false. split; [done|]. by rewrite HK. }
    by rewrite ingest_json_eq, ask_eq, Hrej.
  - by rewrite check_action_key_eq, Hok.
  - intros st detail w'. by apply ingest_json_not_401.
  - intros st detail w'. by apply ask_not_401.
Qed.

(** C10. The API-key check either lets the request through or raises the
    401, and it raises if and only if ACTION_KEY is set (to a non-empty
    string: the source tests its truthiness) and the supplied key differs
    from it.  So with no secret configured (ACTION_KEY unset, or set to the
    empty string) the check never raises: [/ingest_json] and [/ask] treat
    any [x-api-key] header as they treat a missing one, and never answer
    with a 401. *)
Theorem check_action_key_raises_iff x w :
  (check_action_key ACTION_KEY x w = (Return tt, w)
   \/ check_action_key ACTION_KEY x w
      = (Raise (HTTPException 401 (lit "Invalid action key")), w))
  /\ (check_action_key ACTION_KEY x w
      = (Raise (HTTPException 401 (lit "Invalid action key")), w)
      <-> key_configured ACTION_KEY = true /\ x <> ACTION_KEY)
  /\ (key_configured ACTION_KEY = false
      <-> ACTION_KEY = None \/ ACTION_KEY = Some [])
  /\ (key_configured ACTION_KEY = false ->
      check_action_key ACTION_KEY x w = (Return tt, w)
      /\ (forall item : IngestItem.t,
            ingest_json ACTION_KEY str_lower valid_name embeddings_api item x w
            = ingest_json ACTION_KEY str_lower valid_name embeddings_api item None w
            /\ forall st detail w',
                 ingest_json ACTION_KEY str_lower valid_name embeddings_api item x w
                 = (Raise (HTTPException st detail), w') -> st <> 401%Z)
      /\ (forall req : AskRequest.t,
            ask ACTION_KEY str_lower valid_name chat_api similarity req x w
            = ask ACTION_KEY str_lower valid_name chat_api similarity req None w
            /\ forall st detail w',
                 ask ACTION_KEY str_lower valid_name chat_api similarity req x w
                 = (Raise (HTTPException st detail), w') -> st <> 401%Z)).
Proof.
  split_and!.
  - rewrite check_action_key_eq. destruct (key_accepted ACTION_KEY x); eauto.
  - rewrite check_action_key_eq, <- key_accepted_false.
    destruct (key_accepted ACTION_KEY x); split; done.
  - apply key_configured_false.
  - intros Hconf.
    assert (Hany : forall y, key_accepted ACTION_KEY y = true).
    { intros y. unfold key_accepted. by rewrite Hconf. }
    split_and!.
    + by rewrite check_action_key_eq, Hany.
    + intros item. split.
      * by rewrite !ingest_json_eq, !Hany.
      * intros st detail w'. by apply ingest_json_not_401.
    + intros req. split.
      * by rewrite !ask_eq, !Hany.
      * intros st detail w'. by apply ask_not_401.
Qed.

(** ** Partitions are created on first use and never deleted *)

Lemma keeps_partitions_refl s : keeps_partitions s s.
Proof. by intros name. Qed.

Lemma keeps_partitions_resolved name s : keeps_partitions s (resolved name s).
Proof. intros name'. apply resolved_keeps. Qed.

Lemma keeps_partitions_insert name rows s :
  keeps_partitions s (<[name := rows]> s).
Proof.
  intros name' H. destruct (decide (name = name')) as [->|Hne].
  - rewrite lookup_insert_eq. by eexists.
  - by rewrite lookup_insert_ne.
Qed.

Create HintDb partitions.
#[local] Hint Resolve keeps_partitions_refl keeps_partitions_resolved
  keeps_partitions_insert : partitions.

Lemma stats_eq client w :
  stats str_lower valid_name client w =
  if resolvable valid_name (collection_name str_lower client) (store w)
  then
    (Return (JDict [(lit "client", JStr client);
                    (lit "count",
                     JInt (Z.of_nat
                             (size (partition (collection_name str_lower client)
                                      (store w)))))]),
     mkWorld (resolved (collection_name str_lower client) (store w))
       (log w ++ resolve_events (collection_name str_lower client) (store w)
        ++ [Count (collection_name str_lower client)]))
  else
    (Raise PyError,
     mkWorld (store w)
       (log w ++ resolve_events (collection_name str_lower client) (store w))).
Proof.
  unfold stats, bind. rewrite ensure_collection_eq.
  destruct (resolvable valid_name _ (store w)); [|done].
  erewrite col_count_eq by (cbn [store]; apply lookup_resolved).
  cbn [store log]. by rewrite <- app_assoc.
Qed.

Lemma search_store client q top_k w :
  store (search str_lower valid_name similarity client q top_k w).2
  = if resolvable valid_name (collection_name str_lower client) (store w)
    then resolved (collection_name str_lower client) (store w)
    else store w.
Proof.
  unfold search, bind. rewrite ensure_collection_eq.
  destruct (resolvable valid_name _ (store w)); [|done].
  erewrite col_query_eq by (cbn [store]; apply lookup_resolved).
  cbn [store log].
  destruct (similarity _ _ _) as [r|]; [|done].
  destruct (documents r); [done|]. cbn [first]. unfold ret at 1.
  destruct (metadatas r); done.
Qed.

Lemma ask_store (req : AskRequest.t) x w :
  store (ask ACTION_KEY str_lower valid_name chat_api similarity req x w).2
  = if key_accepted ACTION_KEY x
    then if resolvable valid_name
              (collection_name str_lower (AskRequest.client req)) (store w)
         then resolved (collection_name str_lower (AskRequest.client req))
                (store w)
         else store w
    else store w.
Proof.
  ask_paths; done.
Qed.

Lemma stats_keeps_partitions client w :
  keeps_partitions (store w) (store (stats str_lower valid_name client w).2).
Proof. rewrite stats_eq. case_match; cbn [snd store]; auto with partitions. Qed.

Lemma search_keeps_partitions client q top_k w :
  keeps_partitions (store w)
    (store (search str_lower valid_name similarity client q top_k w).2).
Proof. rewrite search_store. case_match; auto with partitions. Qed.

Lemma ask_keeps_partitions (req : AskRequest.t) x w :
  keeps_partitions (store w)
    (store (ask ACTION_KEY str_lower valid_name chat_api similarity req x w).2).
Proof. rewrite ask_store. repeat case_match; auto with partitions. Qed.

Lemma ingest_json_keeps_partitions (item : IngestItem.t) x w :
  keeps_partitions (store w)
    (store (ingest_json ACTION_KEY str_lower valid_name embeddings_api item x w).2).
Proof.
  ingest_paths; cbn [snd store]; auto with partitions.
Qed.


End ServerFacts.

(** ** The handlers at work on a concrete deployment *)

Section Runs.

Import Demo.

Lemma chunk_is_split_strip_filter_witness :
  chunk (lit "  a " ++ [LF; LF; LF] ++ lit "b") = [lit "a"; lit "b"].
Proof.
  etrans; [|reflexivity].
  apply (proj2 (proj2 (proj2 (proj2 (proj2
           (chunk_is_split_strip_filter (lit "  a " ++ [LF; LF; LF] ++ lit "b"))))))
           [lit "  a " ++ [LF]; lit "b"] [lit "a"; lit "b"]).
  - split; [reflexivity|].
    repeat constructor; apply split_alone_no_blank; vm_compute; reflexivity.
  - constructor; [|constructor; [|constructor]].
    + exists (lit "  "), (lit " " ++ [LF]).
      split_and!; [reflexivity | by repeat constructor | by repeat constructor
                  | reflexivity | by intros c [= <-]].
    + exists [], [].
      split_and!; [reflexivity | constructor | constructor
                  | reflexivity | by intros c [= <-]].
Defined.

Example chunk_two_paragraphs :
  chunk (lit "  A tenancy clause." ++ [LF; LF; LF] ++ lit " A termination clause." ++ [LF])
  = [lit "A tenancy clause."; lit "A termination clause."].
Proof. vm_compute. reflexivity. Qed.

(** [b64decode] passes over characters outside the alphabet, so ["%%%"]
    decodes to no bytes at all: the request is refused for its empty chunk
    set. *)
Example ingest_percent_signs :
  Base64.b64decode (lit "%%%") = Base64.Decoded []
  /\ ingest_json secret ascii_lower name_ok embeddings_up garbled secret empty_world
     = (Raise (HTTPException 400 (lit "No text chunks")), empty_world).
Proof. split; vm_compute; reflexivity. Qed.

(** A truncated quantum is a decoding failure. *)
Example ingest_incorrect_padding :
  ingest_json secret ascii_lower name_ok embeddings_up
    {| IngestItem.client := lit "Acme"; IngestItem.filename := lit "lease.txt";
       IngestItem.content_b64 := lit "QSB0ZW5hbmN5" ++ lit "QQ" |}
    secret empty_world
  = (Raise (HTTPException 400 (lit "Invalid base64: Incorrect padding")),
     empty_world).
Proof. vm_compute. reflexivity. Qed.

(** An ACTION_KEY set to the empty string switches the check off. *)
Example empty_action_key_accepts_any_key (w : World vec) :
  check_action_key (Some []) (Some (lit "anything")) w = (Return tt, w)
  /\ check_action_key (Some []) None w = (Return tt, w).
Proof. split; reflexivity. Qed.

Lemma ingest_json_upserts_chunks_witness :
  exists resp w',
    ingest_json secret ascii_lower name_ok embeddings_up lease secret empty_world
    = (Return resp, w')
    /\ Json.get "added" resp = Some (JInt 2)
    /\ partition (lit "docs_acme") (store w') !! lit "lease.txt:1"
       = Some (mkRow (lit "A termination clause.")
                 {[ lit "filename" := lit "lease.txt" ]} [21%Z]).
Proof.
  eexists _, _. split; [vm_compute; reflexivity|].
  destruct (ingest_json_upserts_chunks secret ascii_lower name_ok embeddings_up
              lease secret empty_world _ _ eq_refl)
    as (content_bytes & r & vecs & Hb & Hr & Hvecs & _ & Hadded & _ & _ & _ & _
        & Hrow & _).
  vm_compute in Hb. injection Hb as <-.
  vm_compute in Hr. injection Hr as <-.
  vm_compute in Hvecs. injection Hvecs as <-.
  split; [exact Hadded|].
  exact (proj1 (Hrow 1%nat _ _ eq_refl eq_refl)).
Defined.

Lemma failed_ingest_writes_nothing_witness :
  exists w',
    ingest_json secret ascii_lower name_ok embeddings_down lease secret empty_world
    = (Raise (HTTPException 502 (lit "Embed failed: overloaded")), w')
    /\ store w' = store empty_world.
Proof.
  eexists. split; [vm_compute; reflexivity|].
  eapply (proj1 (failed_ingest_writes_nothing secret ascii_lower name_ok embeddings_down
                   lease secret empty_world)).
  vm_compute. reflexivity.
Defined.

Lemma ask_without_hits_returns_sentinel_witness :
  exists w',
    ask secret ascii_lower name_ok chat_up no_hits question secret empty_world
    = (Return (JDict [(lit "answer", JStr (lit "Not found in the provided documents."));
                      (lit "sources", JList [])]), w')
    /\ chat_calls (log w') = [].
Proof.
  destruct (ask_without_hits_returns_sentinel secret ascii_lower name_ok chat_up no_hits
              question secret empty_world _ eq_refl eq_refl eq_refl eq_refl)
    as (w' & Hrun & _ & Hcalls).
  exists w'. split; [exact Hrun | exact Hcalls].
Defined.

Lemma ask_context_is_ranked_concatenation_witness :
  exists out w',
    ask secret ascii_lower name_ok chat_up Scenario.two_hits question secret
      empty_world = (out, w')
    /\ chat_calls (log w')
       = [(lit "What does the termination clause say?",
           lit "[1] lease.txt" ++ [LF] ++ lit "A termination clause." ++ [LF; LF]
           ++ lit "[2] unknown" ++ [LF] ++ lit "A tenancy clause." ++ [LF; LF])]
    /\ out = Return (JDict [(lit "answer", JStr (lit "See clause 2."));
                            (lit "sources",
                             JList (sources_of
                                      [(lit "A termination clause.", lease_meta);
                                       (lit "A tenancy clause.", ∅)]))]).
Proof.
  destruct (ask_context_is_ranked_concatenation secret ascii_lower name_ok chat_up
              Scenario.two_hits question secret empty_world _ _ _ _ _
              eq_refl eq_refl eq_refl eq_refl eq_refl ltac:(discriminate))
    as (out & w' & Hrun & _ & Hcalls & _ & Hout).
  exists out, w'. split; [exact Hrun|]. split; [exact Hcalls | exact Hout].
Defined.

Lemma ask_sources_are_ranked_hits_witness :
  exists w',
    ask secret ascii_lower name_ok chat_up one_hit question secret empty_world
    = (Return (JDict [(lit "answer", JStr (lit "See clause 2."));
                      (lit "sources",
                       JList [JDict [(lit "id", JInt 1);
                                     (lit "filename", JStr (lit "lease.txt"));
                                     (lit "snippet",
                                      JStr (lit "A termination clause."))]])]),
       w').
Proof.
  destruct (ask_sources_are_ranked_hits secret ascii_lower name_ok chat_up one_hit
              question secret empty_world _ _ _ _ _ _ _
              eq_refl eq_refl eq_refl eq_refl eq_refl ltac:(discriminate)
              eq_refl eq_refl eq_refl)
    as (sources & w' & Hrun & Hlen & Hentry).
  exists w'. rewrite Hrun.
  specialize (Hentry 0%nat _ _ eq_refl).
  destruct sources as [|s0 [|s1 sources]]; [discriminate Hlen | | discriminate Hlen].
  injection Hentry as ->. reflexivity.
Defined.

(** The specification also words a source entry as [{rank, filename,
    snippet}]; the response carries the rank under [id], so its entries
    have no field [rank] and are not the ones so specified. *)
Lemma ask_sources_have_no_rank_field :
  exists resp w' entry,
    ask secret ascii_lower name_ok chat_up one_hit question secret empty_world
    = (Return resp, w')
    /\ Json.get "sources" resp = Some (JList [entry])
    /\ Json.get "rank" entry = None
    /\ Json.get "id" entry = Some (JInt 1)
    /\ Json.get "sources" resp
       <> Some (JList (sources_as_specified
                         [(lit "A termination clause.", lease_meta)])).
Proof.
  eexists _, _, _. split; [vm_compute; reflexivity|].
  split; [vm_compute; reflexivity|].
  split; [vm_compute; reflexivity|].
  split; [vm_compute; reflexivity|].
  vm_compute. discriminate.
Qed.

Lemma configured_key_guards_handlers_witness :
  ingest_json secret ascii_lower name_ok embeddings_up lease None empty_world
  = (Raise (HTTPException 401 (lit "Invalid action key")), empty_world)
  /\ ask secret ascii_lower name_ok chat_up one_hit question (Some (lit "guess")) empty_world
     = (Raise (HTTPException 401 (lit "Invalid action key")), empty_world)
  /\ check_action_key secret (Some (lit "s3cret")) empty_world
     = (Return tt, empty_world).
Proof.
  split; [|split].
  - apply (proj1 (configured_key_guards_handlers secret ascii_lower name_ok embeddings_up
                    chat_up one_hit (lit "s3cret") None lease question empty_world
                    eq_refl ltac:(discriminate))).
    discriminate.
  - apply (proj1 (configured_key_guards_handlers secret ascii_lower name_ok embeddings_up
                    chat_up one_hit (lit "s3cret") (Some (lit "guess")) lease
                    question empty_world eq_refl ltac:(discriminate))).
    vm_compute. discriminate.
  - apply (proj2 (configured_key_guards_handlers secret ascii_lower name_ok embeddings_up
                    chat_up one_hit (lit "s3cret") None lease question empty_world
                    eq_refl ltac:(discriminate))).
Defined.

Lemma check_action_key_raises_iff_witness :
  check_action_key None (Some (lit "anything")) empty_world = (Return tt, empty_world)
  /\ ingest_json None ascii_lower name_ok embeddings_up lease (Some (lit "anything")) empty_world
     = ingest_json None ascii_lower name_ok embeddings_up lease None empty_world.
Proof.
  pose proof (check_action_key_raises_iff None ascii_lower name_ok embeddings_up chat_up
                one_hit (Some (lit "anything")) empty_world)
    as (_ & _ & _ & H).
  destruct (H eq_refl) as (Hcheck & Hingest & _).
  split; [exact Hcheck | exact (proj1 (Hingest lease))].
Defined.



(** So is the empty tenant id: ["docs_"] ends with an underscore. *)
Example stats_rejects_empty_tenant :
  stats ascii_lower name_ok [] empty_world
  = (Raise PyError,
     mkWorld ∅ [GetCollection (lit "docs_"); CreateCollection (lit "docs_")]).
Proof. vm_compute. reflexivity. Qed.

End Runs.

(** * Further properties of the code *)

(** ** The chunker: what a chunk is, and when there is none *)

Section ChunkShape.

Lemma lstrip_nil (s : pystr) : lstrip s = [] <-> blank s.
Proof.
  unfold blank. induction s as [|c s IH]; simpl.
  - split; [constructor | done].
  - destruct (is_space c) eqn:E.
    + rewrite IH. split; [by constructor | by inversion 1].
    + split; [done|]. inversion 1; congruence.
Qed.

Lemma rstrip_nil (s : pystr) : rstrip s = [] <-> blank s.
Proof.
  unfold rstrip.
  rewrite <- (reverse_involutive []), (inj_iff reverse).
  change (reverse []) with (@nil N).
  rewrite lstrip_nil. unfold blank. apply Forall_reverse.
Qed.

Lemma strip_nil (s : pystr) : strip s = [] <-> blank s.
Proof.
  unfold strip. rewrite rstrip_nil, <- (lstrip_nil s). split.
  - intros Hb. pose proof (lstrip_lstripped s) as Hl.
    destruct (lstrip s) as [|c q]; [done|].
    simpl in Hl. apply Forall_cons in Hb as [Hc _]. congruence.
  - intros ->. constructor.
Qed.

Lemma blank_substring (c s : pystr) : substring c s -> blank s -> blank c.
Proof.
  intros (l1 & l2 & ->). unfold blank.
  rewrite !Forall_app. tauto.
Qed.

Lemma elem_join_substring (p : pystr) (ps : list pystr) :
  p ∈ ps -> substring p (join blank_line ps).
Proof.
  induction ps as [|p0 ps IH]; [by intros ?%elem_of_nil|].
  intros [->|Hin]%elem_of_cons.
  - destruct ps as [|p1 ps].
    + exists [], []. simpl. by rewrite app_nil_r.
    + exists [], (blank_line ++ join blank_line (p1 :: ps)). done.
  - destruct (IH Hin) as (l1 & l2 & Hj).
    destruct ps as [|p1 ps]; [by apply elem_of_nil in Hin|].
    exists (p0 ++ blank_line ++ l1), l2.
    change (join blank_line (p0 :: p1 :: ps))
      with (p0 ++ blank_line ++ join blank_line (p1 :: ps)).
    rewrite Hj. by rewrite <- !app_assoc.
Qed.

Lemma split_piece_substring (p text : pystr) :
  p ∈ split blank_line text -> substring p text.
Proof.
  intros H. apply elem_join_substring in H. by rewrite join_split in H.
Qed.

Lemma substring_trans (a b c : pystr) :
  substring a b -> substring b c -> substring a c.
Proof.
  intros (l1 & l2 & ->) (k1 & k2 & ->).
  exists (k1 ++ l1), (l2 ++ k2). by rewrite <- !app_assoc.
Qed.

Lemma elem_of_chunk_pieces (c : pystr) (ps : list pystr) :
  c ∈ chunk_pieces ps <-> exists p, p ∈ ps /\ c = strip p /\ c <> [].
Proof.
  unfold chunk_pieces. rewrite list_elem_of_fmap. split.
  - intros (p & -> & Hp). apply list_elem_of_filter in Hp as [Ht Hp].
    exists p. split_and!; [done..|]. by apply truthy_true.
  - intros (p & Hp & -> & Hne). exists p. split; [done|].
    apply list_elem_of_filter. split; [|done]. by apply truthy_true.
Qed.

Lemma blank_join (ps : list pystr) :
  Forall blank ps <-> blank (join blank_line ps).
Proof.
  split.
  - induction 1 as [|p ps Hp Hps IH]; [constructor|].
    destruct ps as [|p1 ps]; [done|].
    change (join blank_line (p :: p1 :: ps))
      with (p ++ blank_line ++ join blank_line (p1 :: ps)).
    unfold blank in *. rewrite !Forall_app. split_and!; [done| |done].
    by repeat constructor.
  - intros Hb. apply Forall_forall. intros p Hp.
    eapply blank_substring; [|exact Hb]. by apply elem_join_substring.
Qed.

Lemma chunk_pieces_nil (ps : list pystr) :
  chunk_pieces ps = [] <-> Forall blank ps.
Proof.
  induction ps as [|p ps IH]; [split; [constructor | done]|].
  rewrite chunk_pieces_cons, Forall_cons, <- IH, <- strip_nil.
  destruct (strip p); simpl; [tauto|].
  split; [done | by intros [? _]].
Qed.

(** X1. Every chunk the chunker emits is non-empty, begins and ends with a
    character that is not whitespace, contains no blank line, and occurs
    in the text as a contiguous substring. *)
Theorem chunks_are_trimmed_paragraphs (text : pystr) :
  Forall (fun c =>
            c <> []
            /\ (forall x, head c = Some x -> is_space x = false)
            /\ (forall x, last c = Some x -> is_space x = false)
            /\ no_blank_line c
            /\ substring c text)
         (chunk text).
Proof.
  apply Forall_forall. intros c Hc.
  pose proof (proj1 (Forall_forall _ _) (chunk_clean text) c Hc)
    as (Hne & Hstrip & Hnb).
  apply elem_of_chunk_pieces in Hc as (p & Hp & -> & _).
  split_and!; [done| | |done|].
  - intros x Hx.
    pose proof (rstrip_lstripped _ (lstrip_lstripped p)) as Hl.
    fold (strip p) in Hl. destruct (strip p); [done|].
    simpl in Hx. by injection Hx as <-.
  - intros x. apply rstrip_last.
  - eapply substring_trans; [|by apply split_piece_substring].
    apply strip_infix.
Qed.

Lemma chunk_nil_blank (text : pystr) : chunk text = [] <-> blank text.
Proof.
  unfold chunk. rewrite chunk_pieces_nil, blank_join. by rewrite join_split.
Qed.

(** X2. The chunker emits no chunk exactly when the text consists of
    whitespace only (the empty text included). *)
Theorem chunk_nil_iff_blank (text : pystr) :
  chunk text = [] <-> blank text.
Proof. apply chunk_nil_blank. Qed.

End ChunkShape.

(** ** Chunk ids *)

Section ChunkIds.

Lemma lit_String (c : ascii) (s : string) :
  lit (String c s) = N_of_ascii c :: lit s.
Proof. reflexivity. Qed.

Lemma pretty_N_char_digit (x : N) :
  is_digit (N_of_ascii (pretty_N_char x)) = true.
Proof. unfold pretty_N_char. by repeat case_match. Qed.

Lemma pretty_N_go_digits (x : N) (s : string) :
  Forall (fun c => is_digit c = true) (lit s) ->
  Forall (fun c => is_digit c = true) (lit (pretty_N_go x s)).
Proof.
  revert s. induction (N.lt_wf_0 x) as [x _ IH]; intros s Hs.
  assert (x = 0 \/ 0 < x)%N as [->|Hx] by lia; [by rewrite pretty_N_go_0|].
  rewrite pretty_N_go_step by done. apply IH.
  - by apply N.div_lt.
  - rewrite lit_String. constructor; [apply pretty_N_char_digit | done].
Qed.

(** [str(i)] consists of decimal digits. *)
Lemma str_of_nat_digits (i : nat) :
  Forall (fun c => is_digit c = true) (str_of_nat i).
Proof.
  unfold str_of_nat, pretty, pretty_nat, pretty, pretty_N.
  case_decide.
  - by repeat constructor.
  - apply pretty_N_go_digits. constructor.
Qed.

(** A string is cut at its last colon in one way only. *)
Lemma colon_cut_unique (f1 f2 d1 d2 : pystr) :
  Forall (fun c => is_digit c = true) d1 ->
  Forall (fun c => is_digit c = true) d2 ->
  f1 ++ lit ":" ++ d1 = f2 ++ lit ":" ++ d2 ->
  f1 = f2 /\ d1 = d2.
Proof.
  intros Hd1 Hd2.
  assert (Hno : forall (d k l : pystr),
             Forall (fun c => is_digit c = true) d -> d <> k ++ lit ":" ++ l).
  { intros d k l Hd ->. apply Forall_app in Hd as [_ Hd].
    apply Forall_cons in Hd as [Hd _]. discriminate Hd. }
  revert f2. induction f1 as [|a f1 IH]; intros [|b f2] E.
  - by injection E.
  - injection E as _ E. by apply Hno in E.
  - injection E as _ E. symmetry in E. by apply Hno in E.
  - injection E as -> E. destruct (IH _ E) as [-> ->]. done.
Qed.

Lemma chunk_id_inj2 (f1 f2 : pystr) (i j : nat) :
  chunk_id f1 i = chunk_id f2 j -> f1 = f2 /\ i = j.
Proof.
  unfold chunk_id. intros E.
  apply colon_cut_unique in E as [-> E]; [|apply str_of_nat_digits..].
  split; [done | by apply str_of_nat_inj].
Qed.

End ChunkIds.

(** ** Handlers over the store: isolation, counts and repeated requests *)

Section StoreFacts.

Context {vec : Type}.
Variable ACTION_KEY : option pystr.
Variable str_lower : pystr -> pystr.
Variable valid_name : pystr -> bool.
Variable embeddings_api : list pystr -> option (Response (list vec)).
Variable chat_api : pystr -> option (Response pystr).
Variable similarity : gmap pystr (Row vec) -> pystr -> Z -> option QueryResult.

Implicit Types (w : World vec) (s : Store vec) (x : option pystr).

Lemma partition_resolved name name' s :
  partition name' (resolved name s) = partition name' s.
Proof.
  unfold partition. destruct (decide (name = name')) as [->|Hne].
  - rewrite lookup_resolved. unfold partition. by destruct (s !! name').
  - by rewrite lookup_resolved_ne.
Qed.

Lemma resolved_present name s : is_Some (s !! name) -> resolved name s = s.
Proof. intros [c Hc]. unfold resolved. by rewrite Hc. Qed.

Lemma resolved_idemp name s : resolved name (resolved name s) = resolved name s.
Proof. apply resolved_present. rewrite lookup_resolved. by eexists. Qed.

Lemma partition_insert name rows s : partition name (<[name := rows]> s) = rows.
Proof. unfold partition. by rewrite lookup_insert_eq. Qed.

Lemma partition_insert_ne name name' rows s :
  name <> name' -> partition name' (<[name := rows]> s) = partition name' s.
Proof. intros Hne. unfold partition. by rewrite lookup_insert_ne. Qed.

(** The loop of [search]. *)
Lemma fold_search_hits (hits : list (pystr * metadata)) (acc : list json) :
  fold_left (fun hits dm => hits ++ [search_hit dm]) hits acc
  = acc ++ ((fun dm => search_hit dm) <$> hits).
Proof.
  revert acc. induction hits as [|h hits IH]; intros acc; simpl.
  - by rewrite app_nil_r.
  - rewrite IH. by rewrite <- app_assoc.
Qed.

(** What [search] does. *)
Lemma search_eq client q top_k w :
  search str_lower valid_name similarity client q top_k w =
  let name := collection_name str_lower client in
  let queried :=
    mkWorld (resolved name (store w))
      (log w ++ resolve_events name (store w) ++ [Query name q top_k]) in
  if resolvable valid_name name (store w) then
    match similarity (partition name (store w)) q top_k with
    | None => (Raise PyError, queried)
    | Some r =>
        match documents r, metadatas r with
        | docs :: _, metas :: _ =>
            (Return (JDict [(lit "client", JStr client); (lit "q", JStr q);
                            (lit "hits",
                             JList ((fun dm => search_hit dm)
                                      <$> zip docs metas))]),
             queried)
        | _, _ => (Raise PyError, queried)
        end
    end
  else
    (Raise PyError, mkWorld (store w) (log w ++ resolve_events name (store w))).
Proof.
  cbv zeta. unfold search, bind. rewrite ensure_collection_eq.
  destruct (resolvable valid_name _ (store w)); [|done].
  erewrite col_query_eq by (cbn [store]; apply lookup_resolved).
  cbn [store log]. rewrite <- !app_assoc.
  destruct (similarity _ _ _) as [r|]; [|done].
  destruct (documents r) as [|docs rest]; [done|]. cbn [first]. unfold ret at 1.
  destruct (metadatas r) as [|metas rest']; [done|]. cbn [first]. unfold ret.
  by rewrite fold_search_hits.
Qed.

(** A successful [ingest_json], inverted. *)
Lemma ingest_json_success (item : IngestItem.t) x w resp w' :
  ingest_json ACTION_KEY str_lower valid_name embeddings_api item x w = (Return resp, w') ->
  exists content_bytes r vecs,
    key_accepted ACTION_KEY x = true
    /\ Base64.b64decode (IngestItem.content_b64 item) = Base64.Decoded content_bytes
    /\ chunk (Utf8.decode_ignore content_bytes) <> []
    /\ embeddings_api (chunk (Utf8.decode_ignore content_bytes)) = Some r
    /\ status_code r = 200%Z
    /\ payload r = Some vecs
    /\ List.length vecs = List.length (chunk (Utf8.decode_ignore content_bytes))
    /\ resp = JDict [(lit "ok", JBool true);
                     (lit "client", JStr (IngestItem.client item));
                     (lit "filename", JStr (IngestItem.filename item));
                     (lit "added",
                      JInt (Z.of_nat (List.length
                                        (chunk (Utf8.decode_ignore content_bytes)))))]
    /\ store w' =
       <[collection_name str_lower (IngestItem.client item) :=
           write_rows (ingest_rows (IngestItem.filename item)
                         (chunk (Utf8.decode_ignore content_bytes)) vecs)
             (partition (collection_name str_lower (IngestItem.client item))
                (store w))]> (store w).
Proof.
  rewrite ingest_json_eq. cbv zeta.
  destruct (key_accepted ACTION_KEY x); [|done].
  destruct (Base64.b64decode _) as [content_bytes|e]; [|done].
  destruct (chunk _) as [|c cs] eqn:Hchunks; [done|].
  destruct (embeddings_api _) as [r|] eqn:Hr; [|done].
  destruct (status_code r =? 200)%Z eqn:Hst; [|done].
  destruct (payload r) as [vecs|] eqn:Hvecs; [|done].
  destruct (resolvable valid_name _ (store w)); [|done].
  case_decide as Hlen; [|done]. intros [= <- <-].
  exists content_bytes, r, vecs. rewrite Hchunks.
  apply Z.eqb_eq in Hst. split_and!; done.
Qed.

(** The converse: when every step succeeds, so does [ingest_json]. *)
Lemma ingest_json_run (item : IngestItem.t) x w content_bytes r vecs :
  key_accepted ACTION_KEY x = true ->
  Base64.b64decode (IngestItem.content_b64 item) = Base64.Decoded content_bytes ->
  chunk (Utf8.decode_ignore content_bytes) <> [] ->
  embeddings_api (chunk (Utf8.decode_ignore content_bytes)) = Some r ->
  status_code r = 200%Z ->
  payload r = Some vecs ->
  List.length vecs = List.length (chunk (Utf8.decode_ignore content_bytes)) ->
  resolvable valid_name (collection_name str_lower (IngestItem.client item))
    (store w) = true ->
  exists w',
    ingest_json ACTION_KEY str_lower valid_name embeddings_api item x w
    = (Return (JDict [(lit "ok", JBool true);
                      (lit "client", JStr (IngestItem.client item));
                      (lit "filename", JStr (IngestItem.filename item));
                      (lit "added",
                       JInt (Z.of_nat (List.length
                                         (chunk (Utf8.decode_ignore content_bytes)))))]),
       w')
    /\ store w' =
       <[collection_name str_lower (IngestItem.client item) :=
           write_rows (ingest_rows (IngestItem.filename item)
                         (chunk (Utf8.decode_ignore content_bytes)) vecs)
             (partition (collection_name str_lower (IngestItem.client item))
                (store w))]> (store w).
Proof.
  intros Hkey Hdec Hne Hr Hst Hvecs Hlen Hres.
  rewrite ingest_json_eq. cbv zeta. rewrite Hkey, Hdec.
  destruct (chunk (Utf8.decode_ignore content_bytes)) as [|c cs]; [done|].
  rewrite Hr, Hst, Hvecs, Hres. cbn [Z.eqb Pos.eqb].
  rewrite decide_True by done. by eexists.
Qed.

(** Writing rows twice is writing them once. *)
Lemma write_rows_idemp (rows : list (pystr * Row vec)) c :
  NoDup rows.*1 -> write_rows rows (write_rows rows c) = write_rows rows c.
Proof.
  intros Hnd. apply map_eq. intros k.
  destruct (decide (k ∈ rows.*1)) as [Hin|Hin].
  - apply list_elem_of_fmap in Hin as ([k' r] & -> & Hin).
    apply list_elem_of_lookup in Hin as [i Hi].
    by rewrite !(lookup_write_rows rows _ i k' r).
  - by rewrite !lookup_write_rows_notin.
Qed.

(** Rows under fresh keys grow the partition by their number. *)
Lemma size_write_rows (rows : list (pystr * Row vec)) c :
  NoDup rows.*1 ->
  (forall k, k ∈ rows.*1 -> c !! k = None) ->
  size (write_rows rows c) = (size c + List.length rows)%nat.
Proof.
  revert c. induction rows as [|[k r] rows IH]; intros c Hnd Hfresh.
  - simpl. lia.
  - rewrite fmap_cons in Hnd. apply NoDup_cons in Hnd as [Hk Hnd].
    change (write_rows ((k, r) :: rows) c) with (write_rows rows (<[k := r]> c)).
    rewrite IH; [|done|].
    + rewrite map_size_insert_None; [simpl; lia|].
      apply Hfresh. rewrite fmap_cons. apply elem_of_cons. by left.
    + intros k' Hk'. rewrite lookup_insert_ne; [|by intros ->].
      apply Hfresh. rewrite fmap_cons. apply elem_of_cons. by right.
Qed.

Ltac ingest_paths :=
  rewrite ingest_json_eq; cbv zeta; repeat case_match.

Ltac ask_paths :=
  rewrite ask_eq; cbv zeta; repeat case_match.

Ltac search_paths :=
  rewrite search_eq; cbv zeta; repeat case_match.

(** X3. With the key accepted and a content that base64-decodes, an
    [/ingest_json] is refused with the 400 "No text chunks", the world left
    as found, exactly when the decoded text consists of whitespace only. *)
Theorem ingest_no_chunks_iff_blank (item : IngestItem.t) x w content_bytes :
  key_accepted ACTION_KEY x = true ->
  Base64.b64decode (IngestItem.content_b64 item) = Base64.Decoded content_bytes ->
  ingest_json ACTION_KEY str_lower valid_name embeddings_api item x w
  = (Raise (HTTPException 400 (lit "No text chunks")), w)
  <-> blank (Utf8.decode_ignore content_bytes).
Proof.
  intros Hkey Hdec. rewrite <- chunk_nil_blank.
  rewrite ingest_json_eq. cbv zeta. rewrite Hkey, Hdec.
  destruct (chunk (Utf8.decode_ignore content_bytes)) as [|c cs]; [done|].
  split; [|done]. repeat case_match; intros [=].
Qed.

(** X4. Tenant isolation: whatever a request for one tenant does, every
    partition other than that tenant's is, rows and all, as it was. *)
Theorem handlers_leave_other_partitions_alone (client name' : pystr) w :
  name' <> collection_name str_lower client ->
  store (stats str_lower valid_name client w).2 !! name' = store w !! name'
  /\ (forall q top_k,
        store (search str_lower valid_name similarity client q top_k w).2 !! name'
        = store w !! name')
  /\ (forall (req : AskRequest.t) x,
        AskRequest.client req = client ->
        store (ask ACTION_KEY str_lower valid_name chat_api similarity req x w).2 !! name'
        = store w !! name')
  /\ (forall (item : IngestItem.t) x,
        IngestItem.client item = client ->
        store (ingest_json ACTION_KEY str_lower valid_name embeddings_api item x w).2 !! name'
        = store w !! name').
Proof.
  intros Hne. split_and!.
  - rewrite stats_eq. case_match; cbn [snd store]; [|done].
    by rewrite lookup_resolved_ne.
  - intros q top_k. rewrite search_store. case_match; [|done].
    by rewrite lookup_resolved_ne.
  - intros req x <-. rewrite ask_store.
    repeat case_match; try done. by rewrite lookup_resolved_ne.
  - intros item x <-. ingest_paths; cbn [snd store]; try done.
    + by rewrite lookup_insert_ne.
    + by rewrite lookup_resolved_ne.
Qed.

(** X5. The reading endpoints never change a row: after [/stats],
    [/search] or [/ask], whatever the outcome, every partition holds the
    rows it held; and when the tenant's partition already exists they leave
    the store exactly as found. *)
Theorem reads_never_change_rows (client : pystr) w :
  (forall name,
      partition name (store (stats str_lower valid_name client w).2)
      = partition name (store w))
  /\ (forall name q top_k,
        partition name (store (search str_lower valid_name similarity client q top_k w).2)
        = partition name (store w))
  /\ (forall name (req : AskRequest.t) x,
        partition name
          (store (ask ACTION_KEY str_lower valid_name chat_api similarity req x w).2)
        = partition name (store w))
  /\ (is_Some (store w !! collection_name str_lower client) ->
      store (stats str_lower valid_name client w).2 = store w
      /\ (forall q top_k,
            store (search str_lower valid_name similarity client q top_k w).2 = store w)
      /\ (forall (req : AskRequest.t) x,
            AskRequest.client req = client ->
            store (ask ACTION_KEY str_lower valid_name chat_api similarity req x w).2
            = store w)).
Proof.
  split_and!.
  - intros name. rewrite stats_eq. case_match; cbn [snd store]; [|done].
    apply partition_resolved.
  - intros name q top_k. rewrite search_store. case_match; [|done].
    apply partition_resolved.
  - intros name req x. rewrite ask_store.
    repeat case_match; try done. apply partition_resolved.
  - intros Hsome. split_and!.
    + rewrite stats_eq. case_match; cbn [snd store]; [|done].
      by apply resolved_present.
    + intros q top_k. rewrite search_store. case_match; [|done].
      by apply resolved_present.
    + intros req x <-. rewrite ask_store.
      repeat case_match; try done. by apply resolved_present.
Qed.

(** X6. Ingest then count: after a successful [/ingest_json] of a file
    none of whose chunk ids was in the tenant's partition, [/stats] for the
    tenant returns the previous count plus the reported [added], and leaves
    the store as the ingest left it. *)
Theorem stats_counts_ingested_chunks (item : IngestItem.t) x w resp w' :
  ingest_json ACTION_KEY str_lower valid_name embeddings_api item x w = (Return resp, w') ->
  (forall i,
      partition (collection_name str_lower (IngestItem.client item)) (store w)
      !! chunk_id (IngestItem.filename item) i = None) ->
  exists added w'',
    Json.get "added" resp = Some (JInt added)
    /\ stats str_lower valid_name (IngestItem.client item) w'
       = (Return
            (JDict [(lit "client", JStr (IngestItem.client item));
                    (lit "count",
                     JInt (Z.of_nat
                             (size (partition
                                      (collection_name str_lower
                                         (IngestItem.client item)) (store w)))
                           + added))]), w'')
    /\ store w'' = store w'.
Proof.
  intros Hrun Hfresh.
  destruct (ingest_json_success _ _ _ _ _ Hrun)
    as (cb & r & vecs & _ & _ & _ & _ & _ & _ & Hlen & -> & Hstore).
  eexists _, _. split; [reflexivity|].
  rewrite stats_eq, Hstore.
  rewrite resolvable_present by (rewrite lookup_insert_eq; by eexists).
  rewrite partition_insert. split.
  - do 7 f_equal. rewrite size_write_rows.
    + rewrite length_ingest_rows by done. lia.
    + apply ingest_rows_NoDup.
    + intros k Hk. rewrite ingest_rows_keys in Hk.
      apply list_elem_of_fmap in Hk as (i & -> & _). apply Hfresh.
  - cbn [store]. apply resolved_present.
    rewrite lookup_insert_eq. by eexists.
Qed.

(** X7. Re-ingesting is idempotent: the same request repeated after it
    succeeded, the embedding capability answering as before, succeeds with
    the same response and leaves the store as the first run left it. *)
Theorem reingest_is_idempotent (item : IngestItem.t) x w resp w' :
  ingest_json ACTION_KEY str_lower valid_name embeddings_api item x w = (Return resp, w') ->
  exists w'',
    ingest_json ACTION_KEY str_lower valid_name embeddings_api item x w' = (Return resp, w'')
    /\ store w'' = store w'.
Proof.
  intros Hrun.
  destruct (ingest_json_success _ _ _ _ _ Hrun)
    as (cb & r & vecs & Hkey & Hdec & Hne & Hr & Hst & Hvecs & Hlen & -> & Hstore).
  destruct (ingest_json_run item x w' cb r vecs) as (w'' & Hrun' & Hstore');
    try done.
  { apply resolvable_present. rewrite Hstore, lookup_insert_eq. by eexists. }
  exists w''. split; [done|].
  rewrite Hstore', Hstore, partition_insert, insert_insert_eq.
  by rewrite write_rows_idemp by apply ingest_rows_NoDup.
Qed.

Lemma ingest_rows_key_index filename (chunks : list pystr) (vecs : list vec) k :
  k ∈ (ingest_rows filename chunks vecs).*1 ->
  exists i, (i < List.length chunks)%nat /\ k = chunk_id filename i.
Proof.
  rewrite ingest_rows_keys. intros (i & -> & Hi)%list_elem_of_fmap.
  apply elem_of_seq in Hi. rewrite length_zip_with in Hi.
  exists i. split; [lia | done].
Qed.

(** X8. The stale-chunk gap: when a file is ingested again and the second
    ingest reports fewer chunks than the first, the rows of the first
    ingest at the indices from the second count up to the first count are
    still in the partition, unchanged. *)
Theorem shorter_reingest_leaves_stale_chunks
    (item1 item2 : IngestItem.t) x1 x2 w resp1 w1 resp2 w2 (n1 n2 j : nat) :
  ingest_json ACTION_KEY str_lower valid_name embeddings_api item1 x1 w = (Return resp1, w1) ->
  ingest_json ACTION_KEY str_lower valid_name embeddings_api item2 x2 w1 = (Return resp2, w2) ->
  IngestItem.client item2 = IngestItem.client item1 ->
  IngestItem.filename item2 = IngestItem.filename item1 ->
  Json.get "added" resp1 = Some (JInt (Z.of_nat n1)) ->
  Json.get "added" resp2 = Some (JInt (Z.of_nat n2)) ->
  (n2 <= j < n1)%nat ->
  exists row,
    partition (collection_name str_lower (IngestItem.client item1)) (store w1)
    !! chunk_id (IngestItem.filename item1) j = Some row
    /\ partition (collection_name str_lower (IngestItem.client item1)) (store w2)
       !! chunk_id (IngestItem.filename item1) j = Some row.
Proof.
  intros Hrun1 Hrun2 Hclient Hfile Hn1 Hn2 Hj.
  destruct (ingest_json_success _ _ _ _ _ Hrun1)
    as (cb1 & r1 & vecs1 & _ & _ & _ & _ & _ & _ & Hlen1 & -> & Hstore1).
  destruct (ingest_json_success _ _ _ _ _ Hrun2)
    as (cb2 & r2 & vecs2 & _ & _ & _ & _ & _ & _ & Hlen2 & -> & Hstore2).
  injection Hn1 as Hn1%Nat2Z.inj. injection Hn2 as Hn2%Nat2Z.inj.
  rewrite Hclient, Hfile in Hstore2.
  rewrite Hstore2, Hstore1, !partition_insert.
  destruct (lookup_lt_is_Some_2 (chunk (Utf8.decode_ignore cb1)) j) as [c Hc];
    [lia|].
  destruct (lookup_lt_is_Some_2 vecs1 j) as [v Hv]; [lia|].
  eexists. split.
  - eapply lookup_write_rows; [apply ingest_rows_NoDup|].
    by apply ingest_rows_lookup.
  - rewrite lookup_write_rows_notin.
    + eapply lookup_write_rows; [apply ingest_rows_NoDup|].
      by apply ingest_rows_lookup.
    + intros (i & Hi & E)%ingest_rows_key_index.
      apply chunk_id_inj in E. lia.
Qed.

(** X9. Files do not collide: an id ["<filename>:<i>"] determines both the
    filename and the index, so a successful [/ingest_json] of one file
    leaves the rows of every other file of the tenant as they were. *)
Theorem ingest_leaves_other_files_rows (item : IngestItem.t) x w resp w'
    (other : pystr) (j : nat) :
  ingest_json ACTION_KEY str_lower valid_name embeddings_api item x w = (Return resp, w') ->
  other <> IngestItem.filename item ->
  partition (collection_name str_lower (IngestItem.client item)) (store w')
  !! chunk_id other j
  = partition (collection_name str_lower (IngestItem.client item)) (store w)
    !! chunk_id other j.
Proof.
  intros Hrun Hother.
  destruct (ingest_json_success _ _ _ _ _ Hrun)
    as (cb & r & vecs & _ & _ & _ & _ & _ & _ & _ & _ & Hstore).
  rewrite Hstore, partition_insert. apply lookup_write_rows_notin.
  intros (i & _ & E)%ingest_rows_key_index.
  by apply chunk_id_inj2 in E as [? _].
Qed.


(** X11. What [/search] returns: when the partition resolves (it exists
    or the store accepts its name) and the store answers the query, the
    hits are, in the store's order and one per (document, metadata) pair,
    [{filename: <the metadata's filename, or null>, preview: <the first
    240 characters of the document>}]; no preview is longer than 240
    characters, and the request did nothing but resolve and query the
    partition. *)
Theorem search_returns_previews (client q : pystr) (top_k : Z) w r
    docs metas rest rest' :
  resolvable valid_name (collection_name str_lower client) (store w) = true ->
  similarity (partition (collection_name str_lower client) (store w)) q top_k
  = Some r ->
  documents r = docs :: rest ->
  metadatas r = metas :: rest' ->
  exists hits w',
    search str_lower valid_name similarity client q top_k w
    = (Return (JDict [(lit "client", JStr client); (lit "q", JStr q);
                      (lit "hits", JList hits)]), w')
    /\ List.length hits = List.length (zip docs metas)
    /\ (forall i d m,
          zip docs metas !! i = Some (d, m) ->
          hits !! i
          = Some (JDict [(lit "filename",
                          from_option JStr JNull (m !! lit "filename"));
                         (lit "preview", JStr (take 240 d))])
          /\ (List.length (take 240 d) <= 240)%nat)
    /\ log w' = log w
                ++ resolve_events (collection_name str_lower client) (store w)
                ++ [Query (collection_name str_lower client) q top_k].
Proof.
  intros Hres Hsim Hdocs Hmetas. rewrite search_eq. cbv zeta.
  rewrite Hres, Hsim, Hdocs, Hmetas. eexists _, _. split; [done|].
  split_and!; [by rewrite length_fmap| |done].
  intros i d m Hi. rewrite list_lookup_fmap, Hi. split.
  - unfold search_hit. simpl. by destruct (m !! lit "filename").
  - rewrite length_take. lia.
Qed.

Lemma embed_calls_app (l1 l2 : list (event vec)) :
  embed_calls (l1 ++ l2) = embed_calls l1 ++ embed_calls l2.
Proof. apply omap_app. Qed.

Lemma embed_calls_resolve_events name s :
  embed_calls (resolve_events name s) = [].
Proof. unfold resolve_events. by destruct (s !! name). Qed.

Ltac count_calls :=
  cbn [snd log];
  rewrite ?embed_calls_app, ?chat_calls_app,
    ?embed_calls_resolve_events, ?chat_calls_resolve_events;
  simpl; rewrite ?app_nil_r.

(** X12. The remote calls of a request, whatever its outcome: [/stats] and
    [/search] call neither capability; [/ingest_json] never calls the
    generation capability and calls the embedding capability at most once;
    [/ask] never calls the embedding capability and calls the generation
    capability at most once. *)
Theorem remote_call_budget (client : pystr) w :
  (embed_calls (log (stats str_lower valid_name client w).2) = embed_calls (log w)
   /\ chat_calls (log (stats str_lower valid_name client w).2) = chat_calls (log w))
  /\ (forall q top_k,
        embed_calls (log (search str_lower valid_name similarity client q top_k w).2)
        = embed_calls (log w)
        /\ chat_calls (log (search str_lower valid_name similarity client q top_k w).2)
           = chat_calls (log w))
  /\ (forall (item : IngestItem.t) x,
        chat_calls (log (ingest_json ACTION_KEY str_lower valid_name embeddings_api item x w).2)
        = chat_calls (log w)
        /\ exists l,
             embed_calls
               (log (ingest_json ACTION_KEY str_lower valid_name embeddings_api item x w).2)
             = embed_calls (log w) ++ l
             /\ (List.length l <= 1)%nat)
  /\ (forall (req : AskRequest.t) x,
        embed_calls (log (ask ACTION_KEY str_lower valid_name chat_api similarity req x w).2)
        = embed_calls (log w)
        /\ exists l,
             chat_calls
               (log (ask ACTION_KEY str_lower valid_name chat_api similarity req x w).2)
             = chat_calls (log w) ++ l
             /\ (List.length l <= 1)%nat).
Proof.
  split_and!.
  - rewrite stats_eq. case_match; by count_calls.
  - rewrite stats_eq. case_match; by count_calls.
  - intros q top_k. search_paths; by count_calls.
  - intros item x. ingest_paths; count_calls; (split; [done|]);
      first [ exists []; split; [by rewrite app_nil_r | simpl; lia]
            | eexists; split; [reflexivity | simpl; lia] ].
  - intros req x. ask_paths; count_calls; (split; [done|]);
      first [ exists []; split; [by rewrite app_nil_r | simpl; lia]
            | eexists; split; [reflexivity | simpl; lia] ].
Qed.

(** X13. Resolving a partition that exists, or whose name the store
    accepts, returns the partition's name, changes no row of it and is
    idempotent: a second resolution returns the same name, performs the
    lookup alone and leaves the store as the first left it.  Resolving an
    absent partition whose name the store rejects raises, after the lookup
    and the refused creation, and leaves the store as found. *)
Theorem ensure_collection_idempotent (client : pystr) w :
  (resolvable valid_name (collection_name str_lower client) (store w) = true ->
   exists w1 w2,
     ensure_collection str_lower valid_name client w
     = (Return (collection_name str_lower client), w1)
     /\ ensure_collection str_lower valid_name client w1
        = (Return (collection_name str_lower client), w2)
     /\ is_Some (store w1 !! collection_name str_lower client)
     /\ partition (collection_name str_lower client) (store w1)
        = partition (collection_name str_lower client) (store w)
     /\ store w2 = store w1
     /\ log w2 = log w1 ++ [GetCollection (collection_name str_lower client)])
  /\ (resolvable valid_name (collection_name str_lower client) (store w) = false ->
      store w !! collection_name str_lower client = None
      /\ ensure_collection str_lower valid_name client w
         = (Raise PyError,
            mkWorld (store w)
              (log w ++ [GetCollection (collection_name str_lower client);
                         CreateCollection (collection_name str_lower client)]))).
Proof.
  split.
  - intros Hres. eexists _, _. rewrite ensure_collection_eq, Hres.
    split; [reflexivity|].
    rewrite ensure_collection_eq. cbn [store log].
    rewrite resolvable_present by (rewrite lookup_resolved; by eexists).
    split; [reflexivity|]. cbn [store log]. split_and!.
    + rewrite lookup_resolved. by eexists.
    + apply partition_resolved.
    + apply resolved_idemp.
    + f_equal. unfold resolve_events. by rewrite lookup_resolved.
  - intros Hres. rewrite ensure_collection_eq, Hres.
    unfold resolvable, resolve_events in *.
    by destruct (store w !! collection_name str_lower client).
Qed.

End StoreFacts.

(** ** Decoding the content *)

Section DecodingFacts.

Lemma b64_significant_ascii (c : N) :
  b64_significant c = true -> (c <? 128) = true.
Proof.
  unfold b64_significant, Base64.table_a2b, Base64.PAD.
  repeat case_match; intros; try discriminate; apply N.ltb_lt;
    repeat match goal with
           | H : _ && _ = true |- _ => apply andb_prop in H as [? ?]
           | H : (_ <=? _) = true |- _ => apply N.leb_le in H
           | H : (_ =? _) = true |- _ => apply N.eqb_eq in H
           end; lia.
Qed.

Lemma a2b_loop_filter (data : pybytes) (quad_pos leftchar pads : N) (out : pybytes) :
  Base64.a2b_loop (filter (fun c => b64_significant c = true) data)
    quad_pos leftchar pads out
  = Base64.a2b_loop data quad_pos leftchar pads out.
Proof.
  revert quad_pos leftchar pads out.
  induction data as [|c data IH]; intros quad_pos leftchar pads out; [done|].
  rewrite filter_cons.
  destruct (b64_significant c) eqn:Hs.
  - rewrite decide_True by done. cbn [Base64.a2b_loop].
    repeat case_match; by rewrite ?IH.
  - rewrite decide_False by done. cbn [Base64.a2b_loop].
    unfold b64_significant in Hs.
    destruct (Base64.table_a2b c); [done|]. rewrite Hs. apply IH.
Qed.

Lemma forallb_ascii_filter (s : pystr) :
  forallb (fun c => c <? 128) (filter (fun c => b64_significant c = true) s) = true.
Proof.
  induction s as [|c s IH]; [done|]. rewrite filter_cons.
  case_decide as Hc; [|done]. simpl. by rewrite b64_significant_ascii.
Qed.

Lemma filter_insignificant (s : pystr) :
  Forall (fun c => b64_significant c = false) s ->
  filter (fun c => b64_significant c = true) s = [].
Proof.
  induction 1 as [|c s Hc Hs IH]; [done|].
  by rewrite filter_cons, decide_False by congruence.
Qed.

(** X14. [b64decode] of a [str]: a content with a character outside
    ASCII is refused (so [/ingest_json] answers 400 for it, whatever else
    it holds).  In a content that is all ASCII, every character that is
    neither of the base64 alphabet nor the padding character is passed
    over: the content decodes as it does without those characters.  So
    ASCII line breaks and spaces inside [content_b64] are harmless, and an
    ASCII content made of such characters only decodes to no bytes at all
    rather than failing. *)
Theorem b64decode_skips_other_characters (s : pystr) :
  (forallb (fun c => c <? 128) s = true ->
   Base64.b64decode (filter (fun c => b64_significant c = true) s)
   = Base64.b64decode s
   /\ (Forall (fun c => b64_significant c = false) s ->
       Base64.b64decode s = Base64.Decoded []))
  /\ (forallb (fun c => c <? 128) s = false ->
      Base64.b64decode s
      = Base64.Failed (lit "string argument should contain only ASCII characters")).
Proof.
  split.
  - intros Hascii.
    assert (E : Base64.b64decode (filter (fun c => b64_significant c = true) s)
                = Base64.b64decode s).
    { unfold Base64.b64decode, Base64.a2b_base64.
      by rewrite forallb_ascii_filter, Hascii, a2b_loop_filter. }
    split; [done|]. intros Hnone. rewrite <- E.
    by rewrite filter_insignificant.
  - intros Hnot. unfold Base64.b64decode. by rewrite Hnot.
Qed.

Lemma decode_ignore_length_le (n : nat) (s : pybytes) :
  (List.length s <= n)%nat ->
  (List.length (Utf8.decode_ignore s) <= List.length s)%nat.
Proof.
  revert s. induction n as [|n IH]; intros s Hn.
  - destruct s; [simpl; lia | simpl in Hn; lia].
  - destruct s as [|ch s1]; [simpl; lia|].
    cbn [Utf8.decode_ignore].
    repeat case_match; subst; cbn [List.length] in *; try lia;
      repeat match goal with
             | |- context [Utf8.decode_ignore ?X] =>
                 lazymatch goal with
                 | H : (List.length (Utf8.decode_ignore X) <= _)%nat |- _ => fail
                 | _ => pose proof (IH X ltac:(cbn [List.length]; lia))
                 end
             end;
      cbn [List.length] in *; lia.
Qed.

(** X15. Decoding the content as text: bytes that are all ASCII decode to
    themselves, code point for byte, and in general the decoded text never
    has more characters than the content has bytes. *)
Theorem decode_ignore_ascii_and_length (content_bytes : pybytes) :
  (Forall (fun b => b < 128) content_bytes ->
   Utf8.decode_ignore content_bytes = content_bytes)
  /\ (List.length (Utf8.decode_ignore content_bytes)
      <= List.length content_bytes)%nat.
Proof.
  split.
  - induction 1 as [|b bs Hb Hbs IH]; [done|].
    cbn [Utf8.decode_ignore]. apply N.ltb_lt in Hb. by rewrite Hb, IH.
  - by eapply decode_ignore_length_le.
Qed.

End DecodingFacts.

(** ** Chunking texts joined by a blank line *)

Section ChunkComposition.

(** X16. Chunking composes over blank-line joins: the chunks of two texts
    joined by a blank line are the chunks of the first followed by the
    chunks of the second, and so the chunks of any number of texts joined
    by blank lines are their chunks, concatenated in order. *)
Theorem chunk_of_joined_texts (a b : pystr) (texts : list pystr) :
  chunk (a ++ blank_line ++ b) = chunk a ++ chunk b
  /\ chunk (join blank_line texts) = concat (chunk <$> texts).
Proof.
  split; [apply chunk_app_blank_line|].
  induction texts as [|t texts IH]; [done|].
  destruct texts as [|t' texts].
  - simpl. by rewrite app_nil_r.
  - change (join blank_line (t :: t' :: texts))
      with (t ++ blank_line ++ join blank_line (t' :: texts)).
    rewrite chunk_app_blank_line, IH. done.
Qed.

End ChunkComposition.

(** ** How many chunks an ingest adds *)

Section IngestBounds.

Context {vec : Type}.
Variable ACTION_KEY : option pystr.
Variable str_lower : pystr -> pystr.
Variable valid_name : pystr -> bool.
Variable embeddings_api : list pystr -> option (Response (list vec)).

Lemma length_concat_nonempty (cs : list pystr) :
  Forall (fun c => c <> []) cs ->
  (List.length cs <= List.length (concat cs))%nat.
Proof.
  induction 1 as [|c cs Hc Hcs IH]; [done|].
  simpl. rewrite length_app. destruct c; [done|]. simpl. lia.
Qed.

Lemma length_chunk_le (text : pystr) :
  (List.length (chunk text) <= List.length text)%nat.
Proof.
  etrans; [apply length_concat_nonempty|].
  - eapply Forall_impl; [apply chunk_clean|]. by intros c (? & _).
  - apply sublist_length. rewrite <- (join_split text) at 2.
    apply chunk_pieces_sublist.
Qed.

(** X17. A successful [/ingest_json] never reports zero: [added] is at
    least 1, and it is at most the number of bytes the content decodes to
    (so at most the number of characters of the decoded text). *)
Theorem ingest_added_bounds (item : IngestItem.t) x (w : World vec) resp w' :
  ingest_json ACTION_KEY str_lower valid_name embeddings_api item x w = (Return resp, w') ->
  exists (added : nat) content_bytes,
    Json.get "added" resp = Some (JInt (Z.of_nat added))
    /\ Base64.b64decode (IngestItem.content_b64 item) = Base64.Decoded content_bytes
    /\ (1 <= added)%nat
    /\ (added <= List.length (Utf8.decode_ignore content_bytes))%nat
    /\ (added <= List.length content_bytes)%nat.
Proof.
  intros Hrun.
  destruct (ingest_json_success _ _ _ _ _ _ _ _ _ Hrun)
    as (cb & r & vecs & _ & Hdec & Hne & _ & _ & _ & _ & -> & _).
  exists (List.length (chunk (Utf8.decode_ignore cb))), cb.
  pose proof (length_chunk_le (Utf8.decode_ignore cb)) as Hle.
  pose proof (decode_ignore_length_le _ cb (le_n _)) as Hle'.
  split_and!; [done..| |done|lia].
  destruct (chunk (Utf8.decode_ignore cb)); [done | simpl; lia].
Qed.

End IngestBounds.

(** ** More runs on the concrete deployment *)

Section MoreRuns.

Import Demo Scenario.

Lemma ingest_no_chunks_iff_blank_witness :
  ingest_json secret ascii_lower name_ok embeddings_up blank_document secret empty_world
  = (Raise (HTTPException 400 (lit "No text chunks")), empty_world).
Proof.
  apply (proj2 (ingest_no_chunks_iff_blank secret ascii_lower name_ok embeddings_up
                  blank_document secret empty_world [32; 10; 10; 32]
                  eq_refl eq_refl)).
  vm_compute. repeat constructor.
Defined.

Lemma handlers_leave_other_partitions_alone_witness :
  store (ingest_json secret ascii_lower name_ok embeddings_up lease secret empty_world).2
  !! lit "docs_globex" = None.
Proof.
  pose proof (handlers_leave_other_partitions_alone secret ascii_lower name_ok
                embeddings_up chat_up one_hit (lit "Acme") (lit "docs_globex")
                empty_world ltac:(vm_compute; discriminate))
    as (_ & _ & _ & H).
  rewrite (H lease secret eq_refl). reflexivity.
Defined.

Lemma stats_counts_ingested_chunks_witness :
  exists w'',
    stats ascii_lower name_ok (lit "Acme")
      (ingest_json secret ascii_lower name_ok embeddings_up lease secret empty_world).2
    = (Return (JDict [(lit "client", JStr (lit "Acme")); (lit "count", JInt 2)]),
       w'').
Proof.
  destruct (stats_counts_ingested_chunks secret ascii_lower name_ok embeddings_up
              lease secret empty_world _ _ eq_refl
              ltac:(intros i; apply lookup_empty))
    as (added & w'' & Hadded & Hstats & _).
  vm_compute in Hadded. injection Hadded as <-.
  exists w''. exact Hstats.
Defined.

Lemma reingest_is_idempotent_witness :
  exists w'',
    ingest_json secret ascii_lower name_ok embeddings_up lease secret
      (ingest_json secret ascii_lower name_ok embeddings_up lease secret empty_world).2
    = (Return lease_response, w'')
    /\ store w''
       = store (ingest_json secret ascii_lower name_ok embeddings_up lease secret
                  empty_world).2.
Proof.
  apply (reingest_is_idempotent secret ascii_lower name_ok embeddings_up lease secret
           empty_world).
  vm_compute. reflexivity.
Defined.

Lemma shorter_reingest_leaves_stale_chunks_witness :
  exists w1 w2 row,
    w1 = (ingest_json secret ascii_lower name_ok embeddings_up lease secret empty_world).2
    /\ w2 = (ingest_json secret ascii_lower name_ok embeddings_up short_lease secret w1).2
    /\ partition (lit "docs_acme") (store w1) !! lit "lease.txt:1" = Some row
    /\ partition (lit "docs_acme") (store w2) !! lit "lease.txt:1" = Some row.
Proof.
  eexists _, _.
  destruct (shorter_reingest_leaves_stale_chunks secret ascii_lower name_ok embeddings_up
              lease short_lease secret secret empty_world _ _ _ _ 2 1 1
              eq_refl eq_refl eq_refl eq_refl eq_refl eq_refl ltac:(lia))
    as (row & H1 & H2).
  exists row. split; [reflexivity|]. split; [reflexivity|].
  split; [exact H1 | exact H2].
Defined.

Lemma ingest_leaves_other_files_rows_witness :
  partition (lit "docs_acme")
    (store (ingest_json secret ascii_lower name_ok embeddings_up lease secret empty_world).2)
  !! lit "nda.txt:0" = None.
Proof.
  etrans; [|reflexivity].
  apply (ingest_leaves_other_files_rows secret ascii_lower name_ok embeddings_up
           lease secret empty_world lease_response _ (lit "nda.txt") 0).
  - vm_compute. reflexivity.
  - vm_compute. discriminate.
Defined.


Lemma search_returns_previews_witness :
  exists w',
    search ascii_lower name_ok one_hit (lit "Acme") (lit "termination") 1 empty_world
    = (Return (JDict [(lit "client", JStr (lit "Acme"));
                      (lit "q", JStr (lit "termination"));
                      (lit "hits",
                       JList [JDict [(lit "filename", JStr (lit "lease.txt"));
                                     (lit "preview",
                                      JStr (lit "A termination clause."))]])]),
       w').
Proof.
  destruct (search_returns_previews ascii_lower name_ok one_hit (lit "Acme")
              (lit "termination") 1 empty_world _ _ _ _ _
              eq_refl eq_refl eq_refl eq_refl)
    as (hits & w' & Hrun & Hlen & Hhit & _).
  exists w'. rewrite Hrun.
  destruct (Hhit 0%nat _ _ eq_refl) as [H0 _].
  destruct hits as [|h0 [|h1 hits]]; [discriminate Hlen | | discriminate Hlen].
  injection H0 as ->. reflexivity.
Defined.

Lemma ensure_collection_idempotent_witness :
  (ensure_collection ascii_lower name_ok (lit "Acme") empty_world).1
  = Return (lit "docs_acme")
  /\ ensure_collection ascii_lower name_ok (lit "Acme Corp") empty_world
     = (Raise PyError,
        mkWorld ∅ [GetCollection (lit "docs_acme corp");
                   CreateCollection (lit "docs_acme corp")]).
Proof.
  split.
  - destruct (proj1 (ensure_collection_idempotent ascii_lower name_ok (lit "Acme")
                       empty_world) eq_refl)
      as (w1 & w2 & H1 & _).
    rewrite H1. reflexivity.
  - etrans; [|reflexivity].
    apply (proj2 (ensure_collection_idempotent ascii_lower name_ok (lit "Acme Corp")
                    empty_world) eq_refl).
Defined.

Lemma b64decode_skips_other_characters_witness :
  Base64.b64decode wrapped = Base64.Decoded (lit "ABCD")
  /\ Base64.b64decode (wrapped ++ [233%N])
     = Base64.Failed (lit "string argument should contain only ASCII characters").
Proof.
  split.
  - rewrite <- (proj1 (proj1 (b64decode_skips_other_characters wrapped) eq_refl)).
    vm_compute. reflexivity.
  - apply (proj2 (b64decode_skips_other_characters (wrapped ++ [233%N]))).
    vm_compute. reflexivity.
Defined.

Lemma ingest_added_bounds_witness :
  exists added : nat,
    (ingest_json secret ascii_lower name_ok embeddings_up lease secret empty_world).1
    = Return lease_response
    /\ Json.get "added" lease_response = Some (JInt (Z.of_nat added))
    /\ (1 <= added <= 40)%nat.
Proof.
  destruct (ingest_added_bounds secret ascii_lower name_ok embeddings_up lease secret
              empty_world lease_response
              (ingest_json secret ascii_lower name_ok embeddings_up lease secret
                 empty_world).2
              ltac:(vm_compute; reflexivity))
    as (added & cb & Hadded & Hdec & H1 & _ & Hle).
  vm_compute in Hdec. injection Hdec as <-.
  exists added. split; [vm_compute; reflexivity|].
  split; [exact Hadded|]. simpl in Hle. lia.
Defined.

End MoreRuns.
